(** * webpage_monitor.py: a shallow embedding of [WebpageMonitor]

    The Python class [WebpageMonitor] drives OpenCV ([cv2]), Pillow and
    Selenium.  The methods of the class are embedded as functions; the
    library calls they make are either written out from the libraries'
    documented behaviour (slicing, saturating subtraction, bounding
    rectangles, the early return of [groupRectangles], rectangle
    painting, alpha compositing) or taken as parameters of a section
    together with the part of their contract that is used (grayscale
    conversion, contour extraction, the clustering branch of
    [groupRectangles]).  The renderer takes its painter as a parameter
    too, so that the rectangles it asks for can be observed;
    [draw_rectangle] is Pillow's.

    Images are row-major grids: the outer list holds the rows (index y),
    each row the pixels of that line (index x).  Channel and intensity
    values are 8-bit quantities carried as [Z]. *)

From Stdlib Require Import ZArith Lia.
From stdpp Require Import base list option numbers.

Open Scope Z_scope.

(** ** Python exceptions and results *)

Inductive pyexn : Type :=
| CvError              (* cv2.error *)
| ValueError
| TypeError
| AttributeError
| UnboundLocalError    (* [del] of a local that was never bound *)
| WebDriverException   (* selenium: navigation or session failure *)
| OSError              (* file could not be written *)
| CalledProcessError   (* subprocess.run(..., check=True) *)
| KeyboardInterrupt.   (* not a subclass of Exception *)

(** [except Exception] catches everything but the [BaseException]-only
    classes; of those only [KeyboardInterrupt] is modelled. *)
Definition is_Exception (e : pyexn) : bool :=
  match e with
  | KeyboardInterrupt => false
  | _ => true
  end.

Inductive result (A : Type) : Type :=
| Ok (a : A)
| Err (e : pyexn).
Arguments Ok {A} a.
Arguments Err {A} e.

(** Sequencing: the first exception raised ends the computation. *)
#[global] Instance result_ret : MRet result := fun A a => Ok a.
#[global] Instance result_bind : MBind result := fun A B k r =>
  match r with
  | Ok a => k a
  | Err e => Err e
  end.

Definition is_Ok {A} (r : result A) : Prop := exists a, r = Ok a.

(** ** Grids, shapes and Python slicing *)

Abbreviation grid A := (list (list A)) (only parsing).

Definition nrows {A} (g : grid A) : Z := Z.of_nat (length g).
Definition ncols {A} (g : grid A) : Z :=
  match g with
  | [] => 0
  | r :: _ => Z.of_nat (length r)
  end.

(** A grid is a proper array when all its rows have the width of the
    first one. *)
Definition rectangular {A} (g : grid A) : Prop :=
  Forall (fun r => Z.of_nat (length r) = ncols g) g.

(** [Mat::empty()]: no element at all. *)
Definition mat_empty {A} (g : grid A) : bool :=
  (nrows g =? 0) || (ncols g =? 0).

(** Element at column [x] of row [y], [None] outside the grid. *)
Definition pixel {A} (g : grid A) (x y : Z) : option A :=
  if (x <? 0) || (y <? 0) then None
  else r ← g !! Z.to_nat y; r !! Z.to_nat x.

(** Python's normalisation of one bound of [l[start:stop]] for a
    sequence of length [len]: a negative bound counts from the end, and
    every bound is clamped into [0, len]. *)
Definition slice_index (len i : Z) : Z :=
  if i <? 0 then Z.max 0 (i + len) else Z.min i len.

(** [l[start:stop]]; never fails, yields the empty sequence when the
    normalised bounds cross. *)
Definition py_slice {A} (l : list A) (start stop : Z) : list A :=
  let n := Z.of_nat (length l) in
  let s := slice_index n start in
  let e := slice_index n stop in
  take (Z.to_nat (e - s)) (drop (Z.to_nat s) l).

(** The length of [l[a:b]] for a sequence of length [n]. *)
Definition slice_len (n a b : Z) : Z :=
  Z.max 0 (slice_index n b - slice_index n a).

(** ** Boxes *)

(** A box is the 4-tuple [(x, y, w, h)]. *)
Definition box : Type := Z * Z * Z * Z.

Definition box_x (b : box) : Z := let '(x, _, _, _) := b in x.
Definition box_y (b : box) : Z := let '(_, y, _, _) := b in y.
Definition box_w (b : box) : Z := let '(_, _, w, _) := b in w.
Definition box_h (b : box) : Z := let '(_, _, _, h) := b in h.

(** The box lies in [0, W) x [0, H) and has positive extent. *)
Definition box_within (W H : Z) (b : box) : Prop :=
  let '(x, y, w, h) := b in
  0 <= x /\ 0 <= y /\ 0 < w /\ 0 < h /\ x + w <= W /\ y + h <= H.

(** A region of interest that lies within a W x H image. *)
Definition roi_within (W H : Z) (a : box) : Prop := box_within W H a.

(** The point lies in the box. *)
Definition inside_box (b : box) (p : Z * Z) : Prop :=
  let '(x, y, w, h) := b in
  x <= fst p < x + w /\ y <= snd p < y + h.

(** The box has positive extent and lies in the rectangle [a]. *)
Definition box_inside (a b : box) : Prop :=
  let '(ax, ay, aw, ah) := a in
  let '(x, y, w, h) := b in
  ax <= x /\ ay <= y /\ 0 < w /\ 0 < h /\ x + w <= ax + aw /\ y + h <= ay + ah.

(** ** The values [find_differences] hands back

    [cv2.groupRectangles] returns its rectangle vector through the
    binding's vector converter: the empty tuple for an empty vector, an
    N x 4 [int32] array otherwise.  With an [area] the method rebuilds
    the boxes in a list comprehension, which gives a Python list of
    4-tuples. *)

Inductive pyrepr : Type := PyTuple | NdArray | PyList.

Record pyboxes : Type := PyBoxes { repr : pyrepr; items : list box }.

Definition from_rect_vector (l : list box) : pyboxes :=
  match l with
  | [] => PyBoxes PyTuple []
  | _ => PyBoxes NdArray l
  end.

(** The builtin [any(differences)]: iterate, stop at the first truthy
    element.  A 4-tuple is truthy.  A row of an N x 4 array is an array
    of four elements, whose truth value numpy refuses to give. *)
Definition py_any (d : pyboxes) : result bool :=
  match repr d, items d with
  | _, [] => Ok false
  | NdArray, _ :: _ => Err ValueError
  | _, _ :: _ => Ok true
  end.

(** ** cv2 primitives written out *)

(** A pixel of a decoded screenshot, in OpenCV's channel order.  A
    fourth (alpha) channel, when the PNG has one, is dropped by both
    colour conversions the class uses and is not carried. *)
Record bgr : Type := BGR { blue : Z; green : Z; red : Z }.

Abbreviation image := (list (list bgr)) (only parsing).

Definition u8 (v : Z) : Prop := 0 <= v <= 255.

(** [saturate_cast<uchar>] *)
Definition saturate_u8 (v : Z) : Z := Z.min 255 (Z.max 0 v).

(** [gray[y:y+h, x:x+w]] for [area = (x, y, w, h)]: basic slicing on both
    axes. *)
Definition crop {A} (g : grid A) (area : box) : grid A :=
  let '(x, y, w, h) := area in
  map (fun r => py_slice r x (x + w)) (py_slice g y (y + h)).

Definition same_shape {A B} (a : grid A) (b : grid B) : bool :=
  (nrows a =? nrows b) && (ncols a =? ncols b).

(** [cv2.subtract(a, b)] on two 8-bit single-channel arrays:
    [dst(I) = saturate(a(I) - b(I))] for arrays of one shape.  Arrays
    of different shapes are refused, a one-element array among them:
    the scalar forms of the function take a number or a tuple, and an
    8-bit array is never read as one. *)
Definition subtract (a b : grid Z) : result (grid Z) :=
  if same_shape a b then
    Ok (zip_with (zip_with (fun u v => saturate_u8 (u - v))) a b)
  else Err CvError.

(** A contour is a sequence of points [(x, y)]. *)
Definition point : Type := Z * Z.
Abbreviation contour := (list point) (only parsing).

Definition min_list (d : Z) (l : list Z) : Z := foldr Z.min d l.
Definition max_list (d : Z) (l : list Z) : Z := foldr Z.max d l.

(** [cv2.boundingRect] of a point set: the up-right rectangle from the
    least to the greatest coordinate, both included; the null rectangle
    for no point. *)
Definition boundingRect (c : contour) : box :=
  match c with
  | [] => (0, 0, 0, 0)
  | (x0, y0) :: _ =>
      let xs := map fst c in
      let ys := map snd c in
      let xmin := min_list x0 xs in
      let ymin := min_list y0 ys in
      (xmin, ymin, max_list x0 xs - xmin + 1, max_list y0 ys - ymin + 1)
  end.

(** The changed-pixel mask: contour extraction reads every non-zero
    element of its input as foreground. *)
Definition foreground (v : Z) : bool := negb (v =? 0).

(** ** The detector *)

Section Detector.

(** [cv2.cvtColor(_, cv2.COLOR_BGR2GRAY)], pixel by pixel. *)
Variable luma : bgr -> Z.

(** [cv2.findContours(_, cv2.RETR_EXTERNAL, cv2.CHAIN_APPROX_SIMPLE)],
    first component of the returned pair. *)
Variable findContours : grid Z -> result (list contour).

(** The clustering that [cv2.groupRectangles] performs when its
    threshold is positive and its input is not empty. *)
Variable cluster : list box -> Z -> Z -> list box * list Z.

(** What is used of the contract of [findContours]: it accepts every
    array that has an element; a contour it returns has a point; every
    contour point is a foreground element of the input. *)
Definition findContours_total : Prop :=
  forall g, mat_empty g = false -> is_Ok (findContours g).

Definition on_foreground (g : grid Z) (p : point) : Prop :=
  exists v, pixel g (fst p) (snd p) = Some v /\ foreground v = true.

Definition findContours_sound : Prop :=
  forall g cs, findContours g = Ok cs ->
    Forall (fun c => c <> [] /\ Forall (on_foreground g) c) cs.

(** One more part of the contract: no foreground element is left out,
  each lies in the bounding rectangle of a returned contour (that of
  its own component, or of the component that encloses it). *)
Definition findContours_covers : Prop :=
forall g cs, findContours g = Ok cs ->
  forall p, on_foreground g p ->
    Exists (fun c => inside_box (boundingRect c) p) cs.

(** An array without element is refused; so is [None], which
    [cv2.imdecode] gives for data it cannot decode and which the empty
    grid stands for. *)
Definition cvtColor_BGR2GRAY (img : image) : result (grid Z) :=
  if mat_empty img then Err CvError else Ok (map (map luma) img).

(** [cv2.groupRectangles(rectList, groupThreshold, eps)]: returns at
    once, leaving the rectangles as they are and weighting each by 1,
    when the threshold is not positive or there is no rectangle. *)
Definition groupRectangles (rectList : list box) (groupThreshold eps : Z)
  : list box * list Z :=
  if (groupThreshold <=? 0) || bool_decide (rectList = []) then
    (rectList, map (fun _ => 1) rectList)
  else cluster rectList groupThreshold eps.

Definition translate (dx dy : Z) (b : box) : box :=
  let '(x, y, w, h) := b in (x + dx, y + dy, w, h).

(** The single-channel difference image the method hands to contour
    extraction. *)
Definition difference_image (img1 img2 : image) (area : option box)
  : result (grid Z) :=
  gray1 ← cvtColor_BGR2GRAY img1;
  gray2 ← cvtColor_BGR2GRAY img2;
  let gray1' := match area with Some a => crop gray1 a | None => gray1 end in
  let gray2' := match area with Some a => crop gray2 a | None => gray2 end in
  subtract gray1' gray2'.

(** The intensity array of an image that enters the subtraction. *)
Definition intensities (img : image) (area : option box) : grid Z :=
  match area with
  | Some a => crop (map (map luma) img) a
  | None => map (map luma) img
  end.

Definition find_differences (img1 img2 : image) (area : option box)
  : result pyboxes :=
  diff ← difference_image img1 img2 area;
  contours ← findContours diff;
  let boundingBoxes := map boundingRect contours in
  let groupedBoundingBoxes :=
    from_rect_vector (fst (groupRectangles boundingBoxes 0 1)) in
  Ok match area with
     | Some a =>
         PyBoxes PyList
           (map (translate (box_x a) (box_y a)) (items groupedBoundingBoxes))
     | None => groupedBoundingBoxes
     end.

End Detector.

(** ** Reference instances of the cv2 parameters

    Used to run the detector on concrete images.  [luma_bt601] is the
    fixed-point BT.601 weighting of 8-bit images, with weights of 15
    bits.  [findContours_ref] returns, for every 8-connected component
    of the foreground, the list of its points, the component met last
    in raster order first; a component has the bounding rectangle of
    its outer border, which is what the method keeps of a contour.  An
    array without element has no contour.  A component that lies in a
    hole of another one is returned as well, where [RETR_EXTERNAL]
    leaves it out. *)

Definition luma_bt601 (p : bgr) : Z :=
  saturate_u8
    (Z.shiftr (red p * 9798 + green p * 19235 + blue p * 3735 + 16384) 15).

Fixpoint row_points (y x : Z) (r : list Z) : list point :=
  match r with
  | [] => []
  | v :: r' =>
      (if foreground v then [(x, y)] else []) ++ row_points y (x + 1) r'
  end.

Fixpoint grid_points (y : Z) (g : grid Z) : list point :=
  match g with
  | [] => []
  | r :: g' => row_points y 0 r ++ grid_points (y + 1) g'
  end.

Definition adjacent8 (p q : point) : bool :=
  (Z.abs (fst p - fst q) <=? 1) && (Z.abs (snd p - snd q) <=? 1).

(** Move into [comp] the points of [rest] that touch it, until none
    does. *)
Fixpoint grow (fuel : nat) (comp rest : list point)
  : list point * list point :=
  match fuel with
  | O => (comp, rest)
  | S fuel' =>
      let '(near, far) :=
        List.partition (fun q => existsb (adjacent8 q) comp) rest in
      match near with
      | [] => (comp, rest)
      | _ :: _ => grow fuel' (comp ++ near) far
      end
  end.

Fixpoint components (fuel : nat) (pts : list point) : list contour :=
  match fuel, pts with
  | S fuel', p :: rest =>
      let '(c, rest') := grow (length rest) [p] rest in
      c :: components fuel' rest'
  | _, _ => []
  end.

Definition findContours_ref (g : grid Z) : result (list contour) :=
  let pts := grid_points 0 g in Ok (reverse (components (length pts) pts)).

(** Stands in for the clustering branch, which the method's call
    [groupRectangles(boundingBoxes, 0, 1)] never reaches. *)
Definition no_cluster (rects : list box) (groupThreshold eps : Z)
  : list box * list Z := (rects, map (fun _ => 1) rects).

(** ** State and exceptions *)

(** A computation over a state [S] that returns or raises; the state
    survives an exception. *)
Definition stx (S A : Type) : Type := S -> result A * S.

#[global] Instance stx_ret {S} : MRet (stx S) := fun A a s => (Ok a, s).
#[global] Instance stx_bind {S} : MBind (stx S) := fun A B k m s =>
  match m s with
  | (Ok a, s') => k a s'
  | (Err e, s') => (Err e, s')
  end.

Definition raise {S A} (e : pyexn) : stx S A := fun s => (Err e, s).

(** [for x in l: f x] *)
Fixpoint for_each {S A} (l : list A) (f : A -> stx S unit) : stx S unit :=
  match l with
  | [] => mret tt
  | x :: l' => _ ← f x; for_each l' f
  end.

(** ** Pillow images and the object store *)

Record rgb : Type := RGB { rgb_r : Z; rgb_g : Z; rgb_b : Z }.
Record rgba : Type := RGBA { px_r : Z; px_g : Z; px_b : Z; px_a : Z }.

Inductive pilmode : Type := ModeRGB | ModeRGBA.

(** A Pillow image: its mode and its pixels; [size] is (width, height).
    An RGB image stores 255 in the fourth byte of every pixel. *)
Record pil : Type := PIL { mode : pilmode; pixels : grid rgba }.

Definition pil_size (im : pil) : Z * Z := (ncols (pixels im), nrows (pixels im)).

(** Objects that the renderer reads, creates or updates in place. *)
Inductive pyobj : Type :=
| NdBGR (a : image)        (* numpy array, BGR order *)
| NdRGB (a : grid rgb)     (* numpy array, RGB order *)
| PilImage (im : pil).

Abbreviation loc := nat (only parsing).
Abbreviation heap := (list pyobj) (only parsing).

Definition alloc (o : pyobj) : stx heap loc :=
  fun h => (Ok (length h), h ++ [o]).

Definition load (l : loc) : stx heap pyobj :=
  fun h => match h !! l with
           | Some o => (Ok o, h)
           | None => (Err TypeError, h)
           end.

Definition store (l : loc) (o : pyobj) : stx heap unit :=
  fun h => (Ok tt, <[l := o]> h).

(** [cv2.cvtColor(img, cv2.COLOR_BGR2RGB)]: a new array with the first
    and third channel exchanged; an array without element and a value
    that is not an array are refused. *)
Definition cvtColor_BGR2RGB (img : loc) : stx heap loc :=
  o ← load img;
  match o with
  | NdBGR a =>
      if mat_empty a then raise CvError
      else alloc (NdRGB (map (map (fun p => RGB (red p) (green p) (blue p))) a))
  | NdRGB a =>
      if mat_empty a then raise CvError
      else alloc (NdBGR (map (map (fun p => BGR (rgb_r p) (rgb_g p) (rgb_b p))) a))
  | PilImage _ => raise CvError
  end.

(** [Image.fromarray(img)] on an H x W x 3 array: a new RGB image that
    holds a copy of the data, the channels read in the order they are
    stored. *)
Definition Image_fromarray (img : loc) : stx heap loc :=
  o ← load img;
  match o with
  | NdRGB a =>
      alloc (PilImage (PIL ModeRGB
        (map (map (fun p => RGBA (rgb_r p) (rgb_g p) (rgb_b p) 255)) a)))
  | NdBGR a =>
      alloc (PilImage (PIL ModeRGB
        (map (map (fun p => RGBA (blue p) (green p) (red p) 255)) a)))
  | PilImage _ => raise TypeError
  end.

Definition set_alpha (v : Z) (p : rgba) : rgba :=
  RGBA (px_r p) (px_g p) (px_b p) v.

(** [img.putalpha(v)]: the image becomes RGBA in place and its alpha
    band is filled with [v]. *)
Definition putalpha (img : loc) (v : Z) : stx heap unit :=
  o ← load img;
  match o with
  | PilImage im => store img (PilImage (PIL ModeRGBA (map (map (set_alpha v)) (pixels im))))
  | _ => raise AttributeError
  end.

(** [img.size] *)
Definition Image_size (img : loc) : stx heap (Z * Z) :=
  o ← load img;
  match o with
  | PilImage im => mret (pil_size im)
  | _ => raise AttributeError
  end.

(** [Image.new('RGBA', size, color)] *)
Definition Image_new_RGBA (size : Z * Z) (color : rgba) : stx heap loc :=
  alloc (PilImage (PIL ModeRGBA
    (replicate (Z.to_nat (snd size)) (replicate (Z.to_nat (fst size)) color)))).

(** The pixels that [draw.rectangle((x0, y0, x1, y1), fill)] writes: the
    rectangle includes both corners, and only its part inside the image
    exists to be written. *)
Definition in_rect (area : box) (x y : Z) : bool :=
  let '(x0, y0, x1, y1) := area in
  (x0 <=? x) && (x <=? x1) && (y0 <=? y) && (y <=? y1).

Definition paint_rect (area : box) (fill : rgba) (g : grid rgba) : grid rgba :=
  imap (fun y r =>
    imap (fun x p =>
      if in_rect area (Z.of_nat x) (Z.of_nat y) then fill else p) r) g.

(** How a coordinate of a rectangle reaches the rasteriser.  Pillow
    reads a Python int into a C [float] (24 significant bits, rounded
    to nearest, ties to even) and hands it on as a C [int]; a value
    outside the range of [int] becomes the least [int], as the
    conversion instruction of x86-64 has it.  A coordinate of magnitude
    below [2 ^ 24] goes through unchanged. *)
Definition round_at (e m : Z) : Z :=
  let q := m / 2 ^ e in
  let r := m mod 2 ^ e in
  (if (2 ^ e <? 2 * r) || ((2 * r =? 2 ^ e) && Z.odd q) then q + 1 else q)
  * 2 ^ e.

Definition c_float (v : Z) : Z :=
  let m := Z.abs v in
  Z.sgn v * round_at (Z.max 0 (Z.log2 m - 23)) m.

Definition c_int (v : Z) : Z :=
  if (- 2 ^ 31 <=? v) && (v <? 2 ^ 31) then v else - 2 ^ 31.

(** The rasteriser puts the corners it receives in order. *)
Definition c_rect (area : box) : box :=
  let '(x0, y0, x1, y1) := area in
  let X0 := c_int (c_float x0) in
  let Y0 := c_int (c_float y0) in
  let X1 := c_int (c_float x1) in
  let Y1 := c_int (c_float y1) in
  (Z.min X0 X1, Z.min Y0 Y1, Z.max X0 X1, Z.max Y0 Y1).

(** [ImageDraw.Draw(overlay).rectangle(area, fill=fill)] on an RGBA
    image: the fill replaces the pixels (no blending); a rectangle whose
    second corner is before the first is refused. *)
Definition draw_rectangle (overlay : loc) (area : box) (fill : rgba)
  : stx heap unit :=
  o ← load overlay;
  match o with
  | PilImage im =>
      let '(x0, y0, x1, y1) := area in
      if (c_float x1 <? c_float x0) || (c_float y1 <? c_float y0)
      then raise ValueError
      else store overlay
             (PilImage (PIL (mode im) (paint_rect (c_rect area) fill (pixels im))))
  | _ => raise AttributeError
  end.

(** A painter that looks at the rectangle it is asked for: it refuses,
    with [ValueError], a rectangle that fails the test [ok], and paints
    as [draw_rectangle] does otherwise.  It shows which rectangles a
    caller asks for. *)
Definition checked_rectangle (ok : box -> bool)
    (overlay : loc) (area : box) (fill : rgba) : stx heap unit :=
  if ok area then draw_rectangle overlay area fill else raise ValueError.

(** Both corners of the rectangle are pixels of a W x H image. *)
Definition corners_within (W H : Z) (area : box) : bool :=
  let '(x0, y0, x1, y1) := area in
  (0 <=? x0) && (x0 <? W) && (0 <=? x1) && (x1 <? W) &&
  (0 <=? y0) && (y0 <? H) && (0 <=? y1) && (y1 <? H).

Definition shift_for_div255 (a : Z) : Z := Z.shiftr (Z.shiftr a 8 + a) 8.

(** One pixel of [Image.alpha_composite]: [src] over [dst], in Pillow's
    integer arithmetic with 7 extra bits.  A fully transparent source
    pixel leaves the destination pixel as it is. *)
Definition composite_px (dst src : rgba) : rgba :=
  if px_a src =? 0 then dst
  else
    let blend := px_a dst * (255 - px_a src) in
    let outa255 := px_a src * 255 + blend in
    let coef1 := px_a src * 255 * 255 * 128 / outa255 in
    let coef2 := 255 * 128 - coef1 in
    let channel s d :=
      Z.shiftr (shift_for_div255 (s * coef1 + d * coef2 + 128 * 128)) 7 in
    RGBA (channel (px_r src) (px_r dst))
         (channel (px_g src) (px_g dst))
         (channel (px_b src) (px_b dst))
         (shift_for_div255 (outa255 + 128)).

Definition is_RGBA (im : pil) : bool :=
  match mode im with ModeRGBA => true | ModeRGB => false end.

(** [Image.alpha_composite(im1, im2)]: a new image; both operands must
    be RGBA and of one size. *)
Definition Image_alpha_composite (im1 im2 : loc) : stx heap loc :=
  o1 ← load im1;
  o2 ← load im2;
  match o1, o2 with
  | PilImage a, PilImage b =>
      if is_RGBA a && is_RGBA b && same_shape (pixels a) (pixels b) then
        alloc (PilImage (PIL ModeRGBA
          (zip_with (zip_with composite_px) (pixels a) (pixels b))))
      else raise ValueError
  | _, _ => raise ValueError
  end.

(** ** The renderer *)

Definition to_corners (b : box) : box :=
  let '(x, y, w, h) := b in (x, y, x + w, y + h).

Definition pad5 (b : box) : box :=
  let '(x, y, x2, y2) := b in (x - 5, y - 5, x2 + 5, y2 + 5).

(** A corner rectangle cut down to a W x H image. *)
Definition clamp_rect (W H : Z) (area : box) : box :=
  let '(x0, y0, x1, y1) := area in
  (Z.max 0 x0, Z.max 0 y0, Z.min (W - 1) x1, Z.min (H - 1) y1).

(** The rectangles handed to [draw.rectangle]. *)
Definition painted_rectangles (diffs : list box) : list box :=
  map pad5 (map to_corners diffs).

Section Renderer.

(** [ImageDraw.Draw(overlay).rectangle], the painter. *)
Variable rectangle : loc -> box -> rgba -> stx heap unit.

Definition draw_differences (img : loc) (diffs : list box) : stx heap loc :=
  img ← cvtColor_BGR2RGB img;
  img ← Image_fromarray img;
  _ ← putalpha img 255;
  size ← Image_size img;
  overlay ← Image_new_RGBA size (RGBA 0 0 0 0);
  let diffs := map to_corners diffs in
  let diffs := map pad5 diffs in
  _ ← for_each diffs (fun area => rectangle overlay area (RGBA 0 255 0 50));
  img ← Image_alpha_composite img overlay;
  mret img.

End Renderer.

(** A corner rectangle whose second corner is not before the first. *)
Definition ordered (r : box) : Prop :=
  let '(x0, y0, x1, y1) := r in x0 <= x1 /\ y0 <= y1.

(** Boxes the painter accepts: no negative extent. *)
Definition drawable (diffs : list box) : Prop :=
  Forall (fun b => 0 <= box_w b /\ 0 <= box_h b) diffs.

(** Boxes whose grown rectangle has coordinates of magnitude below
    [2 ^ 24], which reach the rasteriser unchanged. *)
Definition exact_coord (v : Z) : Prop := - 2 ^ 24 < v < 2 ^ 24.

Definition paintable (diffs : list box) : Prop :=
  Forall (fun b => exact_coord (box_x b - 5) /\ exact_coord (box_y b - 5) /\
                   exact_coord (box_x b + box_w b + 5) /\
                   exact_coord (box_y b + box_h b + 5)) diffs.

(** The pixel [(x, y)] lies in the box grown by 5 pixels on its four
    sides, corners included. *)
Definition covers (b : box) (x y : Z) : bool :=
  (box_x b - 5 <=? x) && (x <=? box_x b + box_w b + 5) &&
  (box_y b - 5 <=? y) && (y <=? box_y b + box_h b + 5).

(** What the renderer computes, as values: the base image as RGBA, the
    layer of painted rectangles, and their composite. *)
Definition as_rgba (a : image) : grid rgba :=
  map (map (fun p => RGBA (red p) (green p) (blue p) 255)) a.

(** The transparent layer of the size of an image. *)
Definition blank (a : image) : grid rgba :=
  replicate (Z.to_nat (nrows a)) (replicate (Z.to_nat (ncols a)) (RGBA 0 0 0 0)).

Definition highlight_layer (a : image) (diffs : list box) : grid rgba :=
  foldl (fun g area => paint_rect area (RGBA 0 255 0 50) g)
        (blank a) (map c_rect (painted_rectangles diffs)).

Definition rendered (a : image) (diffs : list box) : grid rgba :=
  zip_with (zip_with composite_px) (as_rgba a) (highlight_layer a diffs).

(** ** Sample images *)

Definition grey (v : Z) : bgr := BGR v v v.

(** A light 3 x 3 page, the page with a dark spot in the middle, the
    page with a bright spot in the middle, the page with the colour of
    the middle pixel shifted at equal luminance, and a 4 x 3 strip. *)
Definition page : image :=
  [[grey 200; grey 200; grey 200];
   [grey 200; grey 200; grey 200];
   [grey 200; grey 200; grey 200]].

Definition page_dark_spot : image :=
  [[grey 200; grey 200; grey 200];
   [grey 200; grey 40; grey 200];
   [grey 200; grey 200; grey 200]].

Definition page_bright_spot : image :=
  [[grey 200; grey 200; grey 200];
   [grey 200; grey 250; grey 200];
   [grey 200; grey 200; grey 200]].

Definition page_tinted : image :=
  [[grey 200; grey 200; grey 200];
   [grey 200; BGR 208 200 197; grey 200];
   [grey 200; grey 200; grey 200]].

Definition strip : image :=
  [[grey 200; grey 200; grey 200; grey 200];
   [grey 200; grey 200; grey 200; grey 200];
   [grey 200; grey 200; grey 200; grey 200]].

(** ** The monitor loop *)

(** What a local variable of [monitor_url_for_changes] can hold: a
    decoded screenshot (numpy array) or a Pillow image. *)
Inductive pyval : Type :=
| PyArray (a : image)
| PyImage (im : pil).

(** [draw_differences] as the loop uses it: on a value, giving a value.
    The method is run on a store that holds the argument only. *)
Definition draw_differences_py (v : pyval) (diffs : pyboxes) : result pyval :=
  match v with
  | PyArray a =>
      let '(r, h) :=
        draw_differences draw_rectangle 0%nat (items diffs) [NdBGR a] in
      l ← r;
      match h !! l with
      | Some (PilImage im) => Ok (PyImage im)
      | _ => Err TypeError
      end
  | PyImage _ => Err CvError
  end.

(** An argument of a method call: an image value or a collection of
    boxes. *)
Inductive pyarg : Type :=
| ArgVal (v : pyval)
| ArgBoxes (d : pyboxes).

(** Observable steps of a run, oldest first. *)
Inductive event : Type :=
| Captured (call : nat)
| Compared (baseline new : pyval) (outcome : result pyboxes)
| Saved (v : pyval)
| Opened
| Slept (interval : Z)
| Printed (e : pyexn)
| DriverQuit.

(** The collaborators: what the [call]-th screenshot request gives, and
    how saving, opening the viewer, sleeping and closing the browser end
    when they happen after [call] requests. *)
Record world : Type := World {
  capture : nat -> result image;
  save_outcome : nat -> result unit;
  open_outcome : nat -> result unit;
  sleep_outcome : nat -> result unit;
  quit_outcome : nat -> result unit
}.

(** The state of a run: requests made, whether the browser session is
    still open, the two locals ([None]: not bound) and the trace. *)
Record mstate : Type := MState {
  calls : nat;
  driver_open : bool;
  img1 : option pyval;
  img2 : option pyval;
  trace : list event
}.

Definition initial : mstate := MState 0 true None None [].

Definition emit (ev : event) : stx mstate unit :=
  fun s => (Ok tt, MState (calls s) (driver_open s) (img1 s) (img2 s) (trace s ++ [ev])).

Definition set_img1 (v : pyval) : stx mstate unit :=
  fun s => (Ok tt, MState (calls s) (driver_open s) (Some v) (img2 s) (trace s)).

Definition set_img2 (v : pyval) : stx mstate unit :=
  fun s => (Ok tt, MState (calls s) (driver_open s) (img1 s) (Some v) (trace s)).

Definition get_img1 : stx mstate pyval :=
  fun s => match img1 s with
           | Some v => (Ok v, s)
           | None => (Err UnboundLocalError, s)
           end.

Definition get_img2 : stx mstate pyval :=
  fun s => match img2 s with
           | Some v => (Ok v, s)
           | None => (Err UnboundLocalError, s)
           end.

(** [del img2] *)
Definition del_img2 : stx mstate unit :=
  fun s => match img2 s with
           | Some _ => (Ok tt, MState (calls s) (driver_open s) (img1 s) None (trace s))
           | None => (Err UnboundLocalError, s)
           end.

Definition lift {S A} (r : result A) : stx S A := fun s => (r, s).

(** How a loop body ends when it does not raise. *)
Inductive ctl : Type := Continue | Break.

(** How a bounded run of the loop ends. *)
Inductive run : Type := Finished | StillRunning.

(** [try: body except Exception: handler] *)
Definition try_except {S A} (body : stx S A) (handler : pyexn -> stx S A)
  : stx S A :=
  fun s => match body s with
           | (Err e, s') => if is_Exception e then handler e s' else (Err e, s')
           | r => r
           end.

(** [try: body finally: fin].  The clause [fin] runs however [body]
    ended.  An exception raised in it replaces the pending one; when it
    leaves by [break] (it yields [Some c]) the pending exception is
    dropped; when it runs to its end ([None]) the outcome of [body]
    stands. *)
Definition try_finally {S A} (body : stx S A) (fin : stx S (option A))
  : stx S A :=
  fun s =>
    let '(r, s1) := body s in
    match fin s1 with
    | (Err e, s2) => (Err e, s2)
    | (Ok (Some c), s2) => (Ok c, s2)
    | (Ok None, s2) => (r, s2)
    end.

(** [while True: body], run for at most [fuel] rounds. *)
Fixpoint while_true {S} (fuel : nat) (body : stx S ctl) : stx S run :=
  match fuel with
  | O => mret StillRunning
  | S fuel' =>
      c ← body;
      match c with
      | Break => mret Finished
      | Continue => while_true fuel' body
      end
  end.

Section Monitor.

Variable luma : bgr -> Z.
Variable findContours : grid Z -> result (list contour).
Variable cluster : list box -> Z -> Z -> list box * list Z.
Variable w : world.

(** [self.url_to_img(url)]: one request to the browser session. *)
Definition url_to_img : stx mstate pyval :=
  fun s =>
    let k := calls s in
    let s' := MState (S k) (driver_open s) (img1 s) (img2 s) (trace s) in
    if driver_open s then
      match capture w k with
      | Ok a => (Ok (PyArray a),
                 MState (S k) (driver_open s) (img1 s) (img2 s)
                        (trace s ++ [Captured k]))
      | Err e => (Err e, s')
      end
    else (Err WebDriverException, s').

(** [self.find_differences(img1, img2)] on the values of the two
    locals; a Pillow image is not an array [cv2.cvtColor] takes. *)
Definition find_differences_py (a b : pyval) : result pyboxes :=
  match a, b with
  | PyArray x, PyArray y => find_differences luma findContours cluster x y None
  | _, _ => Err CvError
  end.

(** [img2.save('differences.png')] *)
Definition save_png (v : pyval) : stx mstate unit :=
  fun s =>
    match v with
    | PyImage _ =>
        match save_outcome w (calls s) with
        | Ok _ => emit (Saved v) s
        | Err e => (Err e, s)
        end
    | PyArray _ => (Err AttributeError, s)
    end.

(** [subprocess.run(['open', 'differences.png'], check=True)] *)
Definition open_viewer : stx mstate unit :=
  fun s => match open_outcome w (calls s) with
           | Ok _ => emit Opened s
           | Err e => (Err e, s)
           end.

(** [time.sleep(interval)] *)
Definition sleep (interval : Z) : stx mstate unit :=
  fun s => match sleep_outcome w (calls s) with
           | Ok _ => emit (Slept interval) s
           | Err e => (Err e, s)
           end.

(** [self.driver.quit()] *)
Definition driver_quit : stx mstate unit :=
  fun s => match quit_outcome w (calls s) with
           | Ok _ => (Ok tt, MState (calls s) false (img1 s) (img2 s)
                                    (trace s ++ [DriverQuit]))
           | Err e => (Err e, s)
           end.

(** The statements under [if any(differences):]: [img2] is bound
    anew to the annotated image, which is saved and shown. *)
Definition publish (differences : pyboxes) : stx mstate unit :=
  b ← get_img2;
  r ← lift (draw_differences_py b differences);
  _ ← set_img2 r;
  b ← get_img2;
  _ ← save_png b;
  open_viewer.

(** The statements under [try:].  [img1 = img2.copy()] binds [img1] to
    a value equal to that of [img2]. *)
Definition try_clause (interval : Z) : stx mstate ctl :=
  v ← url_to_img;
  _ ← set_img2 v;
  a ← get_img1;
  b ← get_img2;
  let outcome := find_differences_py a b in
  _ ← emit (Compared a b outcome);
  differences ← lift outcome;
  c ← lift (py_any differences);
  _ ← (if c : bool then publish differences else mret tt);
  b ← get_img2;
  _ ← set_img1 b;
  _ ← sleep interval;
  mret Continue.

(** The statements under [except Exception:]. *)
Definition except_clause (e : pyexn) : stx mstate ctl :=
  _ ← emit (Printed e);
  mret Continue.

(** The statements under [finally:]; the clause ends in [break]. *)
Definition finally_clause : stx mstate (option ctl) :=
  _ ← del_img2;
  _ ← driver_quit;
  mret (Some Break).

Definition loop_body (interval : Z) : stx mstate ctl :=
  try_finally (try_except (try_clause interval) except_clause) finally_clause.

Definition monitor_url_for_changes (interval : Z) (fuel : nat)
  : stx mstate run :=
  v ← url_to_img;
  _ ← set_img1 v;
  while_true fuel (loop_body interval).

(** [self.find_differences(img1, img2, area=...)] on values. *)
Definition find_differences_in (area : option box) (a b : pyval)
: result pyboxes :=
match a, b with
| PyArray x, PyArray y => find_differences luma findContours cluster x y area
| _, _ => Err CvError
end.

(** A call [self.draw_differences(...)] with the given arguments.  The
  method takes an image and the boxes; a call with another number of
  arguments is refused with [TypeError] before the body runs (calls
  with two arguments of other kinds do not occur). *)
Definition call_draw_differences (args : list pyarg) : result pyval :=
match args with
| [ArgVal img; ArgBoxes diffs] => draw_differences_py img diffs
| _ => Err TypeError
end.

Definition compare_webpages : stx mstate pyval :=
img1 ← url_to_img;
img2 ← url_to_img;
differences ← lift (find_differences_in (Some (1500, 100, 300, 600)) img1 img2);
img2 ← lift (call_draw_differences
                [ArgVal img1; ArgVal img2; ArgBoxes differences]);
_ ← save_png img2;
mret img2.

End Monitor.

(** The comparisons a trace records. *)
Definition comparisons (t : list event) : list (pyval * pyval) :=
  omap (fun ev => match ev with
                  | Compared a b _ => Some (a, b)
                  | _ => None
                  end) t.

(** The steps that publish a result: writing the artifact, opening the
    viewer. *)
Definition publishes (ev : event) : bool :=
  match ev with
  | Saved _ | Opened => true
  | _ => false
  end.

(** [m] makes at most [k] more screenshot requests and records at most
    [c] more comparisons. *)
Definition within {A} (k c : nat) (m : stx mstate A) : Prop :=
  forall s,
    (calls (snd (m s)) <= calls s + k)%nat /\
    (length (comparisons (trace (snd (m s)))) <=
       length (comparisons (trace s)) + c)%nat.

(** Sample collaborators: every screenshot shows [page] except the
    second, which fails ([flaky]), shows the dark spot ([changing]) or
    has another width ([resized]); everything else succeeds. *)
Definition flaky : world :=
  World (fun k => match k with
                  | 1%nat => Err WebDriverException
                  | _ => Ok page
                  end)
        (fun _ => Ok tt) (fun _ => Ok tt) (fun _ => Ok tt) (fun _ => Ok tt).

Definition changing : world :=
  World (fun k => match k with
                  | 1%nat => Ok page_dark_spot
                  | _ => Ok page
                  end)
        (fun _ => Ok tt) (fun _ => Ok tt) (fun _ => Ok tt) (fun _ => Ok tt).

Definition resized : world :=
  World (fun k => match k with
                  | 1%nat => Ok strip
                  | _ => Ok page
                  end)
        (fun _ => Ok tt) (fun _ => Ok tt) (fun _ => Ok tt) (fun _ => Ok tt).

(** More sample collaborators: a browser that answers no request
    ([down]); a page that does not change and a sleep that is
    interrupted from the keyboard ([interrupted]); a page wide and high
    enough to reach the region of [compare_webpages] ([wide]). *)
Definition down : world :=
  World (fun _ => Err WebDriverException)
        (fun _ => Ok tt) (fun _ => Ok tt) (fun _ => Ok tt) (fun _ => Ok tt).

Definition interrupted : world :=
  World (fun _ => Ok page)
        (fun _ => Ok tt) (fun _ => Ok tt) (fun _ => Err KeyboardInterrupt)
        (fun _ => Ok tt).

Definition wide_page : image := replicate 101 (replicate 1501 (grey 200)).

Definition wide : world :=
  World (fun _ => Ok wide_page)
        (fun _ => Ok tt) (fun _ => Ok tt) (fun _ => Ok tt) (fun _ => Ok tt).

(** * Properties *)

(** ** Slicing and cropping *)

Section Slicing.

Lemma slice_index_range n i : 0 <= n -> 0 <= slice_index n i <= n.
Proof. unfold slice_index. destruct (i <? 0) eqn:E; lia. Qed.

Lemma py_slice_length {A} (l : list A) a b :
  Z.of_nat (length (py_slice l a b)) = slice_len (Z.of_nat (length l)) a b.
Proof.
  unfold py_slice, slice_len.
  pose proof (slice_index_range (Z.of_nat (length l)) a ltac:(lia)).
  pose proof (slice_index_range (Z.of_nat (length l)) b ltac:(lia)).
  rewrite length_take, length_drop. lia.
Qed.

Lemma slice_len_le n a k : 0 <= n -> 0 <= a -> 0 <= k -> slice_len n a (a + k) <= k.
Proof. intros. unfold slice_len, slice_index.
  destruct (a <? 0) eqn:E1, (a + k <? 0) eqn:E2; lia. Qed.

Lemma slice_len_inside n a k :
  0 <= a -> 0 <= k -> a + k <= n -> slice_len n a (a + k) = k.
Proof. intros. unfold slice_len, slice_index.
  destruct (a <? 0) eqn:E1, (a + k <? 0) eqn:E2; lia. Qed.

Lemma Forall_py_slice {A} (P : A -> Prop) (l : list A) a b :
  Forall P l -> Forall P (py_slice l a b).
Proof. intros H. unfold py_slice. by apply Forall_take, Forall_drop. Qed.

Lemma nrows_crop {A} (g : grid A) x y w h :
  nrows (crop g (x, y, w, h)) = slice_len (nrows g) y (y + h).
Proof. unfold nrows, crop. rewrite length_map. apply py_slice_length. Qed.

Lemma ncols_crop {A} (g : grid A) x y w h :
  rectangular g ->
  ncols (crop g (x, y, w, h)) =
    if nrows (crop g (x, y, w, h)) =? 0 then 0
    else slice_len (ncols g) x (x + w).
Proof.
  intros Hrect. unfold nrows, crop.
  pose proof (Forall_py_slice _ g y (y + h) Hrect) as Hs.
  destruct (py_slice g y (y + h)) as [|r rs]; [reflexivity|]. simpl.
  inversion Hs as [|? ? Hr _]; subst.
  rewrite py_slice_length, Hr.
  destruct (Z.of_nat (S (length (map (fun r0 => py_slice r0 x (x + w)) rs))) =? 0) eqn:E; lia.
Qed.

Lemma crop_same_shape {A B} (g1 : grid A) (g2 : grid B) a :
  rectangular g1 -> rectangular g2 -> same_shape g1 g2 = true ->
  same_shape (crop g1 a) (crop g2 a) = true.
Proof.
  intros H1 H2 Hs. destruct a as [[[x y] w] h].
  unfold same_shape in *.
  apply andb_true_iff in Hs as [Hr Hc].
  apply Z.eqb_eq in Hr, Hc.
  rewrite (ncols_crop g1) by assumption.
  rewrite (ncols_crop g2) by assumption.
  rewrite !nrows_crop, Hr, Hc.
  rewrite !Z.eqb_refl. reflexivity.
Qed.

End Slicing.

(** ** Pixels of a grid *)

Lemma pixel_Some {A} (g : grid A) x y v :
  pixel g x y = Some v ->
  0 <= x /\ 0 <= y /\
  exists r, g !! Z.to_nat y = Some r /\ r !! Z.to_nat x = Some v.
Proof.
  unfold pixel. destruct ((x <? 0) || (y <? 0)) eqn:E; [discriminate|].
  apply orb_false_iff in E as [Ex Ey].
  destruct (g !! Z.to_nat y) as [r|] eqn:Hr; simpl; [|discriminate].
  intros Hv. repeat split; try lia. eauto.
Qed.

Lemma pixel_Forall {A} (P : A -> Prop) (g : grid A) x y v :
  Forall (Forall P) g -> pixel g x y = Some v -> P v.
Proof.
  intros Hg Hp. apply pixel_Some in Hp as (_ & _ & r & Hr & Hv).
  eapply Forall_lookup_1 in Hr; [|exact Hg].
  eapply Forall_lookup_1 in Hv; [|exact Hr]. exact Hv.
Qed.

Lemma pixel_zip_with {A B C} (f : A -> B -> C) (a : grid A) (b : grid B) x y :
  pixel (zip_with (zip_with f) a b) x y =
    u ← pixel a x y; v ← pixel b x y; Some (f u v).
Proof.
  unfold pixel. destruct ((x <? 0) || (y <? 0)); [reflexivity|].
  rewrite lookup_zip_with.
  destruct (a !! Z.to_nat y) as [ra|]; simpl; [|reflexivity].
  destruct (b !! Z.to_nat y) as [rb|]; simpl.
  - rewrite lookup_zip_with. reflexivity.
  - destruct (ra !! Z.to_nat x); reflexivity.
Qed.

Lemma pixel_map {A B} (f : A -> B) (g : grid A) x y :
  pixel (map (map f) g) x y = f <$> pixel g x y.
Proof.
  unfold pixel. destruct ((x <? 0) || (y <? 0)); [reflexivity|].
  change (map (map f) g) with (map f <$> g). rewrite list_lookup_fmap.
  destruct (g !! Z.to_nat y) as [r|]; simpl; [|reflexivity].
  change (map f r) with (f <$> r). apply list_lookup_fmap.
Qed.

(** ** Shapes *)

Lemma nrows_map {A B} (f : list A -> list B) (g : grid A) :
  nrows (map f g) = nrows g.
Proof. unfold nrows. by rewrite length_map. Qed.

Lemma ncols_map {A B} (f : A -> B) (g : grid A) :
  ncols (map (map f) g) = ncols g.
Proof. destruct g; simpl; [reflexivity|]. by rewrite length_map. Qed.

Lemma mat_empty_map {A B} (f : A -> B) (g : grid A) :
  mat_empty (map (map f) g) = mat_empty g.
Proof. unfold mat_empty. by rewrite nrows_map, ncols_map. Qed.

Lemma rectangular_map {A B} (f : A -> B) (g : grid A) :
  rectangular g -> rectangular (map (map f) g).
Proof.
  unfold rectangular. rewrite ncols_map. intros H.
  apply Forall_fmap. eapply Forall_impl; [|exact H].
  intros r Hr. simpl. by rewrite length_map.
Qed.

Lemma same_shape_refl {A} (g : grid A) : same_shape g g = true.
Proof. unfold same_shape. by rewrite !Z.eqb_refl. Qed.

Lemma same_shape_map {A B C D} (f : A -> C) (h : B -> D) (a : grid A) (b : grid B) :
  same_shape (map (map f) a) (map (map h) b) = same_shape a b.
Proof. unfold same_shape. by rewrite !nrows_map, !ncols_map. Qed.

Lemma nrows_zip_with {A B C} (f : list A -> list B -> list C) (a : grid A) (b : grid B) :
  nrows a = nrows b -> nrows (zip_with f a b) = nrows a.
Proof. unfold nrows. intros H. rewrite length_zip_with. lia. Qed.

Lemma ncols_zip_with {A B C} (f : A -> B -> C) (a : grid A) (b : grid B) :
  nrows a = nrows b -> ncols a = ncols b ->
  ncols (zip_with (zip_with f) a b) = ncols a.
Proof.
  destruct a as [|ra a], b as [|rb b]; simpl; try reflexivity.
  - unfold nrows; simpl; lia.
  - intros _ H. rewrite length_zip_with. lia.
Qed.

Lemma mat_empty_zip_with {A B C} (f : A -> B -> C) (a : grid A) (b : grid B) :
  same_shape a b = true ->
  mat_empty (zip_with (zip_with f) a b) = mat_empty a.
Proof.
  unfold same_shape, mat_empty. intros H.
  apply andb_true_iff in H as [Hr Hc]. apply Z.eqb_eq in Hr, Hc.
  by rewrite nrows_zip_with, ncols_zip_with.
Qed.

(** A region of interest inside the array is cut out whole. *)
Lemma crop_within_shape {A} (g : grid A) x y w h :
  rectangular g -> roi_within (ncols g) (nrows g) (x, y, w, h) ->
  nrows (crop g (x, y, w, h)) = h /\ ncols (crop g (x, y, w, h)) = w.
Proof.
  intros Hrect (Hx & Hy & Hw & Hh & Hxw & Hyh).
  assert (Hn : nrows (crop g (x, y, w, h)) = h).
  { rewrite nrows_crop. apply slice_len_inside; lia. }
  split; [exact Hn|].
  rewrite ncols_crop, Hn by assumption.
  destruct (h =? 0) eqn:E; [lia|]. apply slice_len_inside; lia.
Qed.

Lemma crop_within_nonempty {A} (g : grid A) a :
  rectangular g -> roi_within (ncols g) (nrows g) a ->
  mat_empty (crop g a) = false.
Proof.
  destruct a as [[[x y] w] h]. intros Hrect Hroi.
  destruct (crop_within_shape g x y w h Hrect Hroi) as [Hn Hc].
  destruct Hroi as (_ & _ & Hw & Hh & _).
  unfold mat_empty. rewrite Hn, Hc. apply orb_false_iff. split; lia.
Qed.

(** Whatever the region, a cropped array is no larger than the region
    asks for. *)
Lemma crop_pixel_bound {A} (g : grid A) x y w h px py v :
  0 <= x -> 0 <= y -> 0 <= w -> 0 <= h ->
  pixel (crop g (x, y, w, h)) px py = Some v ->
  0 <= px < w /\ 0 <= py < h.
Proof.
  intros Hx Hy Hw Hh Hp.
  apply pixel_Some in Hp as (Hpx & Hpy & r & Hr & Hv).
  unfold crop in Hr. 
  change (map ?f ?l) with (f <$> l) in Hr. rewrite list_lookup_fmap in Hr.
  destruct (py_slice g y (y + h) !! Z.to_nat py) as [r0|] eqn:Hr0; [|discriminate].
  simpl in Hr. injection Hr as <-.
  apply lookup_lt_Some in Hr0, Hv.
  pose proof (py_slice_length g y (y + h)) as L1.
  pose proof (py_slice_length r0 x (x + w)) as L2.
  pose proof (slice_len_le (Z.of_nat (length g)) y h ltac:(lia) Hy Hh).
  pose proof (slice_len_le (Z.of_nat (length r0)) x w ltac:(lia) Hx Hw).
  lia.
Qed.

(** ** Saturating subtraction *)

Lemma saturate_u8_sub u v : u8 u -> u8 v -> saturate_u8 (u - v) = Z.max 0 (u - v).
Proof. unfold u8, saturate_u8. lia. Qed.

Lemma subtract_same_shape a b :
  same_shape a b = true ->
  subtract a b = Ok (zip_with (zip_with (fun u v => saturate_u8 (u - v))) a b).
Proof. unfold subtract. by intros ->. Qed.

Lemma foreground_max_sub u v : foreground (Z.max 0 (u - v)) = true <-> v < u.
Proof.
  unfold foreground. rewrite negb_true_iff, Z.eqb_neq. lia.
Qed.

(** ** Bounding rectangles *)

Lemma min_list_le d l : min_list d l <= d.
Proof. induction l; simpl; lia. Qed.

Lemma max_list_ge d l : d <= max_list d l.
Proof. induction l; simpl; lia. Qed.

Lemma min_list_lower lo d l :
  lo <= d -> Forall (fun v => lo <= v) l -> lo <= min_list d l.
Proof. intros Hd. induction 1; simpl; lia. Qed.

Lemma max_list_upper hi d l :
  d < hi -> Forall (fun v => v < hi) l -> max_list d l < hi.
Proof. intros Hd. induction 1; simpl; lia. Qed.

(** The bounding rectangle of points of a w x h array lies in the
    array. *)
Lemma boundingRect_within w h (c : contour) :
  c <> [] ->
  Forall (fun p => 0 <= fst p < w /\ 0 <= snd p < h) c ->
  box_within w h (boundingRect c).
Proof.
  intros Hne Hc. destruct c as [|[x0 y0] c]; [congruence|].
  assert (Hx : Forall (fun v => 0 <= v) (map fst ((x0, y0) :: c)) /\
               Forall (fun v => v < w) (map fst ((x0, y0) :: c))).
  { split; apply Forall_fmap; (eapply Forall_impl; [|exact Hc]);
      intros p; simpl; lia. }
  assert (Hy : Forall (fun v => 0 <= v) (map snd ((x0, y0) :: c)) /\
               Forall (fun v => v < h) (map snd ((x0, y0) :: c))).
  { split; apply Forall_fmap; (eapply Forall_impl; [|exact Hc]);
      intros p; simpl; lia. }
  inversion Hc as [|? ? [H0x H0y] _]; subst. simpl in H0x, H0y.
  unfold boundingRect, box_within.
  set (xs := map fst _) in *. set (ys := map snd _) in *.
  pose proof (min_list_le x0 xs). pose proof (max_list_ge x0 xs).
  pose proof (min_list_le y0 ys). pose proof (max_list_ge y0 ys).
  pose proof (min_list_lower 0 x0 xs ltac:(lia) (proj1 Hx)).
  pose proof (max_list_upper w x0 xs ltac:(lia) (proj2 Hx)).
  pose proof (min_list_lower 0 y0 ys ltac:(lia) (proj1 Hy)).
  pose proof (max_list_upper h y0 ys ltac:(lia) (proj2 Hy)).
  lia.
Qed.

Lemma translate_within W H x y w h b :
  roi_within W H (x, y, w, h) -> box_within w h b ->
  box_within W H (translate x y b).
Proof.
  destruct b as [[[bx by_] bw] bh]. unfold roi_within, box_within, translate. lia.
Qed.

(** A bounding rectangle holds every point it was made from. *)
Lemma min_list_le_elem d l v : v ∈ l -> min_list d l <= v.
Proof.
  induction l as [|a l IH]; simpl; intros H; [by apply elem_of_nil in H|].
  apply elem_of_cons in H as [->|H]; [lia|]. specialize (IH H). lia.
Qed.

Lemma max_list_ge_elem d l v : v ∈ l -> v <= max_list d l.
Proof.
  induction l as [|a l IH]; simpl; intros H; [by apply elem_of_nil in H|].
  apply elem_of_cons in H as [->|H]; [lia|]. specialize (IH H). lia.
Qed.

Lemma boundingRect_contains (c : list point) p :
  p ∈ c -> inside_box (boundingRect c) p.
Proof.
  intros Hp. destruct c as [|[x0 y0] c]; [by apply elem_of_nil in Hp|].
  unfold boundingRect, inside_box.
  set (xs := map fst _). set (ys := map snd _).
  assert (Hx : fst p ∈ xs) by (by apply (list_elem_of_fmap_2 fst)).
  assert (Hy : snd p ∈ ys) by (by apply (list_elem_of_fmap_2 snd)).
  pose proof (min_list_le_elem x0 xs _ Hx). pose proof (max_list_ge_elem x0 xs _ Hx).
  pose proof (min_list_le_elem y0 ys _ Hy). pose proof (max_list_ge_elem y0 ys _ Hy).
  lia.
Qed.

Lemma foreground_saturate_sub u v : foreground (saturate_u8 (u - v)) = true <-> v < u.
Proof.
  unfold foreground, saturate_u8. rewrite negb_true_iff, Z.eqb_neq. lia.
Qed.

Lemma py_slice_lookup_inside {A} (l : list A) a k i :
  0 <= a -> 0 <= k -> a + k <= Z.of_nat (length l) ->
  py_slice l a (a + k) !! i =
    if Z.of_nat i <? k then l !! (Z.to_nat a + i)%nat else None.
Proof.
  intros Ha Hk Hlen. unfold py_slice, slice_index.
  replace (a <? 0) with false by (symmetry; apply Z.ltb_ge; lia).
  replace (a + k <? 0) with false by (symmetry; apply Z.ltb_ge; lia).
  rewrite !Z.min_l by lia.
  replace (a + k - a) with k by lia.
  destruct (Z.ltb_spec (Z.of_nat i) k).
  - rewrite lookup_take_lt by lia. apply lookup_drop.
  - apply lookup_take_ge. lia.
Qed.

(** Reading a region that lies inside the array: the element at
    [(i, j)] of the crop is the element at [(x + i, y + j)] of the
    array, and the crop has no element outside [0, w) x [0, h). *)
Lemma pixel_crop_inside {A} (g : list (list A)) x y w h i j :
  rectangular g -> roi_within (ncols g) (nrows g) (x, y, w, h) ->
  pixel (crop g (x, y, w, h)) i j =
    if (0 <=? i) && (i <? w) && (0 <=? j) && (j <? h)
    then pixel g (x + i) (y + j) else None.
Proof.
  intros Hrect (Hx & Hy & Hw & Hh & Hxw & Hyh).
  unfold pixel, crop.
  destruct (Z.leb_spec 0 i), (Z.ltb_spec i 0); try lia; simpl;
    [|by destruct (i <? w), (0 <=? j), (j <? h)].
  destruct (Z.leb_spec 0 j), (Z.ltb_spec j 0); try lia; simpl;
    [|by destruct (i <? w), (j <? h)].
  replace ((x + i <? 0) || (y + j <? 0)) with false
    by (symmetry; apply orb_false_iff; split; apply Z.ltb_ge; lia).
  change (map ?f ?l) with (f <$> l). rewrite list_lookup_fmap.
  rewrite py_slice_lookup_inside by (unfold nrows in *; lia).
  rewrite Z2Nat.id by lia.
  replace (Z.to_nat y + Z.to_nat j)%nat with (Z.to_nat (y + j)) by lia.
  destruct (Z.ltb_spec j h); simpl; [|by rewrite andb_false_r].
  rewrite andb_true_r.
  destruct (g !! Z.to_nat (y + j)) as [r|] eqn:Hr; simpl;
    [|by destruct (i <? w)].
  pose proof (Forall_lookup_1 _ _ _ _ Hrect Hr) as Hlen. cbv beta in Hlen.
  rewrite py_slice_lookup_inside by lia.
  rewrite Z2Nat.id by lia.
  replace (Z.to_nat x + Z.to_nat i)%nat with (Z.to_nat (x + i)) by lia.
  by destruct (i <? w).
Qed.

Lemma inside_box_translate dx dy b x y :
  inside_box b (x, y) -> inside_box (translate dx dy b) (x + dx, y + dy).
Proof. destruct b as [[[bx by_] bw] bh]. unfold inside_box, translate. simpl. lia. Qed.

Lemma boundingRect_inside (w h : Z) (c : list point) :
  c <> [] ->
  Forall (fun p => 0 <= fst p < w /\ 0 <= snd p < h) c ->
  box_inside (0, 0, w, h) (boundingRect c).
Proof.
  intros Hne Hc. pose proof (boundingRect_within w h c Hne Hc) as H.
  destruct (boundingRect c) as [[[bx by_] bw] bh].
  unfold box_within in H. unfold box_inside. lia.
Qed.

Lemma box_inside_translate x y w h b :
  box_inside (0, 0, w, h) b -> box_inside (x, y, w, h) (translate x y b).
Proof.
  destruct b as [[[bx by_] bw] bh]. unfold box_inside, translate. lia.
Qed.

#[local] Arguments crop : simpl never.

(** ** The detector *)

Section DetectorProperties.

Variable luma : bgr -> Z.
Variable findContours : list (list Z) -> result (list contour).
Variable cluster : list box -> Z -> Z -> list box * list Z.

Local Abbreviation detect := (find_differences luma findContours cluster).
Local Abbreviation gray img := (map (map luma) img).

Lemma cvtColor_BGR2GRAY_nonempty img :
  mat_empty img = false -> cvtColor_BGR2GRAY luma img = Ok (gray img).
Proof. unfold cvtColor_BGR2GRAY. by intros ->. Qed.

(** Grayscale conversion reads the shape and the luminance only. *)
Lemma cvtColor_BGR2GRAY_ext img img' :
  gray img = gray img' ->
  cvtColor_BGR2GRAY luma img = cvtColor_BGR2GRAY luma img'.
Proof.
  intros H. unfold cvtColor_BGR2GRAY.
  rewrite <- (mat_empty_map luma img), <- (mat_empty_map luma img'), H.
  reflexivity.
Qed.

Lemma difference_image_nonempty img1 img2 area :
  mat_empty img1 = false -> mat_empty img2 = false ->
  difference_image luma img1 img2 area =
    subtract (intensities luma img1 area) (intensities luma img2 area).
Proof.
  intros H1 H2. unfold difference_image.
  rewrite !cvtColor_BGR2GRAY_nonempty by assumption.
  destruct area; reflexivity.
Qed.

Lemma intensities_u8 img area :
  (forall p, u8 (luma p)) -> Forall (Forall u8) (intensities luma img area).
Proof.
  intros Hu.
  assert (Hg : Forall (Forall u8) (gray img)).
  { apply Forall_fmap, Forall_true. intros r.
    apply Forall_fmap, Forall_true. intros p. apply Hu. }
  destruct area as [[[[x y] w] h]|]; simpl; [|exact Hg].
  apply Forall_fmap. eapply Forall_impl; [|apply Forall_py_slice, Hg].
  intros r Hr. simpl. by apply Forall_py_slice.
Qed.

Lemma items_from_rect_vector l : items (from_rect_vector l) = l.
Proof. by destruct l. Qed.

Lemma groupRectangles_threshold_0 rects eps :
  fst (groupRectangles cluster rects 0 eps) = rects.
Proof. reflexivity. Qed.

(** The boxes of a successful call, read off the contours. *)
Lemma find_differences_Ok img1 img2 area d :
  detect img1 img2 area = Ok d ->
  exists diff cs,
    difference_image luma img1 img2 area = Ok diff /\
    findContours diff = Ok cs /\
    items d = match area with
              | Some a => map (translate (box_x a) (box_y a)) (map boundingRect cs)
              | None => map boundingRect cs
              end.
Proof.
  unfold find_differences.
  destruct (difference_image luma img1 img2 area) as [diff|]; [|discriminate].
  simpl. destruct (findContours diff) as [cs|] eqn:Hcs; [|discriminate]. simpl.
  intros [= <-]. exists diff, cs. repeat split; [exact Hcs|].
  destruct area; simpl; by rewrite items_from_rect_vector.
Qed.

Lemma find_differences_run img1 img2 area diff cs :
  difference_image luma img1 img2 area = Ok diff ->
  findContours diff = Ok cs ->
  exists d, detect img1 img2 area = Ok d /\
    items d = match area with
              | Some a => map (translate (box_x a) (box_y a)) (map boundingRect cs)
              | None => map boundingRect cs
              end.
Proof.
  intros Hd Hc. unfold find_differences. rewrite Hd. simpl.
  rewrite Hc. simpl.
  eexists; split; [reflexivity|].
  destruct area; simpl; by rewrite items_from_rect_vector.
Qed.

(** An array without foreground has no contour. *)
Lemma no_foreground_no_contour g cs :
  findContours_sound findContours ->
  (forall x y v, pixel g x y = Some v -> v = 0) ->
  findContours g = Ok cs -> cs = [].
Proof.
  intros Hsound Hzero Hcs. specialize (Hsound g cs Hcs).
  destruct cs as [|c cs]; [reflexivity|].
  inversion Hsound as [|? ? [Hne Hpts] _]; subst.
  destruct c as [|p c]; [congruence|].
  inversion Hpts as [|? ? (v & Hp & Hv) _]; subst.
  apply Hzero in Hp. subst v. discriminate.
Qed.

(** Two images of equal intensities give no box. *)
Lemma equal_intensities_no_box img1 img2 area :
  findContours_total findContours -> findContours_sound findContours ->
  mat_empty img1 = false ->
  gray img1 = gray img2 ->
  mat_empty (intensities luma img1 area) = false ->
  exists d, detect img1 img2 area = Ok d /\ items d = [].
Proof.
  intros Htot Hsound Hne Hgray Hcrop.
  assert (Hne2 : mat_empty img2 = false).
  { by rewrite <- (mat_empty_map luma), <- Hgray, mat_empty_map. }
  assert (Hint : intensities luma img2 area = intensities luma img1 area).
  { unfold intensities. by rewrite Hgray. }
  pose proof (difference_image_nonempty img1 img2 area Hne Hne2) as Hd.
  rewrite Hint, subtract_same_shape in Hd by apply same_shape_refl.
  set (diff := zip_with _ _ _) in Hd.
  assert (Hdne : mat_empty diff = false).
  { unfold diff. by rewrite mat_empty_zip_with by apply same_shape_refl. }
  destruct (Htot diff Hdne) as [cs Hcs].
  assert (cs = []) as ->.
  { eapply no_foreground_no_contour; [exact Hsound| |exact Hcs].
    intros x y v. unfold diff. rewrite pixel_zip_with.
    destruct (pixel (intensities luma img1 area) x y) as [u|]; simpl; [|discriminate].
    intros [= <-]. unfold saturate_u8. lia. }
  destruct (find_differences_run img1 img2 area diff [] Hd Hcs) as (d & Hfd & Hit).
  exists d. split; [exact Hfd|]. rewrite Hit. by destruct area.
Qed.

Lemma intensities_nonempty img area :
  rectangular img -> mat_empty img = false ->
  (forall a, area = Some a -> roi_within (ncols img) (nrows img) a) ->
  mat_empty (intensities luma img area) = false.
Proof.
  intros Hrect Hne Hroi. destruct area as [a|]; simpl.
  - apply crop_within_nonempty; [by apply rectangular_map|].
    rewrite ncols_map, nrows_map. by apply Hroi.
  - by rewrite mat_empty_map.
Qed.

(** C2, as amended: the difference image holds, at every pixel, the
    intensity of the first image (the baseline) minus that of the
    second (the new capture), clipped at 0.  A pixel belongs to the
    changed-pixel mask exactly when its intensity went down from the
    baseline to the new capture; a pixel whose intensity went up or
    stayed is not in the mask. *)
Theorem difference_is_baseline_minus_capture img1 img2 area :
  (forall p, u8 (luma p)) ->
  mat_empty img1 = false -> mat_empty img2 = false ->
  mat_empty (intensities luma img1 area) = false ->
  same_shape (intensities luma img1 area) (intensities luma img2 area) = true ->
  exists diff,
    difference_image luma img1 img2 area = Ok diff /\
    forall x y u v,
      pixel (intensities luma img1 area) x y = Some u ->
      pixel (intensities luma img2 area) x y = Some v ->
      pixel diff x y = Some (Z.max 0 (u - v)) /\
      (foreground (Z.max 0 (u - v)) = true <-> v < u).
Proof.
  intros Hu H1 H2 _ Hs.
  rewrite difference_image_nonempty, subtract_same_shape by assumption.
  eexists; split; [reflexivity|].
  intros x y u v Hpu Hpv. split; [|apply foreground_max_sub].
  rewrite pixel_zip_with, Hpu, Hpv. simpl. f_equal.
  apply saturate_u8_sub.
  - eapply pixel_Forall; [apply intensities_u8, Hu|exact Hpu].
  - eapply pixel_Forall; [apply intensities_u8, Hu|exact Hpv].
Qed.

(** C3: comparing an image with a pixel-identical copy of itself, with
    no region or with a region inside the image, returns no box. *)
Theorem identical_images_no_difference A area :
  findContours_total findContours -> findContours_sound findContours ->
  rectangular A -> mat_empty A = false ->
  (forall a, area = Some a -> roi_within (ncols A) (nrows A) a) ->
  exists d, detect A A area = Ok d /\ items d = [].
Proof.
  intros Htot Hsound Hrect Hne Hroi.
  apply equal_intensities_no_box; try assumption; [reflexivity|].
  by apply intensities_nonempty.
Qed.

(** C10: the detector reads its inputs through their grayscale
    conversions only.  Two pairs of images with the same conversions
    get the same answer, whatever it is; and two images of equal
    luminance at every pixel, however their colours differ, get no
    box. *)
Theorem detector_reads_luminance_only A1 B1 A2 B2 area :
  gray A1 = gray A2 -> gray B1 = gray B2 ->
  detect A1 B1 area = detect A2 B2 area /\
  (findContours_total findContours -> findContours_sound findContours ->
   rectangular A1 -> mat_empty A1 = false ->
   (forall a, area = Some a -> roi_within (ncols A1) (nrows A1) a) ->
   gray A1 = gray B1 ->
   exists d, detect A1 B1 area = Ok d /\ items d = []).
Proof.
  intros HA HB. split.
  - unfold find_differences, difference_image.
    rewrite (cvtColor_BGR2GRAY_ext A1 A2 HA), (cvtColor_BGR2GRAY_ext B1 B2 HB).
    reflexivity.
  - intros Htot Hsound Hrect Hne Hroi Heq.
    apply equal_intensities_no_box; try assumption.
    by apply intensities_nonempty.
Qed.

(** C8: with a region of interest inside the images, every box
    returned is in the coordinates of the whole image: it is the
    bounding rectangle found in the region with the origin of the
    region added to its position; it lies in the rectangle of the
    region, hence in the image; and it holds, at image coordinates, a
    pixel whose intensity is lower in the second image than in the
    first. *)
Theorem boxes_in_image_coordinates img1 img2 x y w h :
  findContours_total findContours -> findContours_sound findContours ->
  rectangular img1 -> rectangular img2 ->
  mat_empty img1 = false -> same_shape img1 img2 = true ->
  roi_within (ncols img1) (nrows img1) (x, y, w, h) ->
  exists d diff cs,
    detect img1 img2 (Some (x, y, w, h)) = Ok d /\
    difference_image luma img1 img2 (Some (x, y, w, h)) = Ok diff /\
    findContours diff = Ok cs /\
    items d =
      map (fun c => (box_x (boundingRect c) + x, box_y (boundingRect c) + y,
                     box_w (boundingRect c), box_h (boundingRect c))) cs /\
    Forall (box_within w h) (map boundingRect cs) /\
    Forall (fun b =>
              box_inside (x, y, w, h) b /\
              box_within (ncols img1) (nrows img1) b /\
              exists px py p q,
                inside_box b (px, py) /\
                pixel img1 px py = Some p /\ pixel img2 px py = Some q /\
                luma q < luma p) (items d).
Proof.
  intros Htot Hsound Hr1 Hr2 Hne1 Hs Hroi.
  assert (Hshape : nrows img2 = nrows img1 /\ ncols img2 = ncols img1).
  { unfold same_shape in Hs. apply andb_true_iff in Hs as [Hn Hc].
    apply Z.eqb_eq in Hn, Hc. by split. }
  destruct Hshape as [Hn2 Hc2].
  assert (Hne2 : mat_empty img2 = false).
  { unfold mat_empty in *. by rewrite Hn2, Hc2. }
  pose proof (difference_image_nonempty img1 img2 (Some (x, y, w, h)) Hne1 Hne2) as Hd.
  simpl in Hd.
  assert (Hcs : same_shape (crop (gray img1) (x, y, w, h))
                           (crop (gray img2) (x, y, w, h)) = true).
  { apply crop_same_shape; try by apply rectangular_map.
    by rewrite same_shape_map. }
  rewrite subtract_same_shape in Hd by exact Hcs.
  set (diff := zip_with _ _ _) in Hd.
  assert (Hcne : mat_empty (crop (gray img1) (x, y, w, h)) = false).
  { apply crop_within_nonempty; [by apply rectangular_map|].
    by rewrite ncols_map, nrows_map. }
  assert (Hdne : mat_empty diff = false).
  { unfold diff. by rewrite mat_empty_zip_with. }
  destruct (Htot diff Hdne) as [cs Hfc].
  destruct (find_differences_run img1 img2 (Some (x, y, w, h)) diff cs Hd Hfc)
    as (d & Hfd & Hit).
  simpl in Hit.
  assert (Hroi1 : roi_within (ncols (gray img1)) (nrows (gray img1)) (x, y, w, h))
    by (by rewrite ncols_map, nrows_map).
  assert (Hroi2 : roi_within (ncols (gray img2)) (nrows (gray img2)) (x, y, w, h))
    by (by rewrite ncols_map, nrows_map, Hn2, Hc2).
  (* a contour point is a pixel of the region where the intensity went down *)
  assert (Hpt : forall px py, on_foreground diff (px, py) ->
            0 <= px < w /\ 0 <= py < h /\
            exists p q, pixel img1 (x + px) (y + py) = Some p /\
                        pixel img2 (x + px) (y + py) = Some q /\
                        luma q < luma p).
  { intros px py (v & Hp & Hv). cbn [fst snd] in Hp.
    unfold diff in Hp. rewrite pixel_zip_with in Hp.
    rewrite !pixel_crop_inside in Hp by (try assumption; by apply rectangular_map).
    destruct ((0 <=? px) && (px <? w) && (0 <=? py) && (py <? h)) eqn:Hin;
      [|discriminate].
    rewrite !pixel_map in Hp.
    destruct (pixel img1 (x + px) (y + py)) as [p|]; [|discriminate].
    destruct (pixel img2 (x + px) (y + py)) as [q|]; [|discriminate].
    simpl in Hp. injection Hp as <-.
    apply foreground_saturate_sub in Hv.
    repeat (apply andb_true_iff in Hin as [Hin ?]).
    repeat split; try lia. by exists p, q. }
  assert (Hlocal : Forall (fun c => c <> [] /\
              Forall (fun p => 0 <= fst p < w /\ 0 <= snd p < h) c) cs).
  { eapply Forall_impl; [|exact (Hsound diff cs Hfc)].
    intros c [Hcne' Hpts]. split; [exact Hcne'|].
    eapply Forall_impl; [|exact Hpts].
    intros [px py] Hfg. cbn [fst snd].
    destruct (Hpt px py Hfg) as (? & ? & _). by split. }
  exists d, diff, cs. split; [exact Hfd|]. split; [exact Hd|].
  split; [exact Hfc|]. split; [|split].
  - rewrite Hit, map_map. apply map_ext. intros c.
    by destruct (boundingRect c) as [[[bx by_] bw] bh].
  - apply Forall_fmap. eapply Forall_impl; [|exact Hlocal].
    intros c [Hcne' Hpts]. simpl. by apply boundingRect_within.
  - rewrite Hit. apply Forall_fmap, Forall_fmap.
    pose proof (Hsound diff cs Hfc) as Hs'.
    apply Forall_forall. intros c Hc.
    pose proof (proj1 (Forall_forall _ _) Hlocal c Hc) as [Hcne' Hpts].
    pose proof (proj1 (Forall_forall _ _) Hs' c Hc) as [_ Hfgs].
    simpl. split; [|split].
    + apply box_inside_translate. by apply boundingRect_inside.
    + eapply translate_within; [exact Hroi|]. by apply boundingRect_within.
    + destruct c as [|[px py] c]; [done|].
      inversion Hfgs as [|? ? Hfg _]; subst.
      destruct (Hpt px py Hfg) as (_ & _ & p & q & Hp & Hq & Hlt).
      exists (px + x), (py + y), p, q.
      split; [|by rewrite (Z.add_comm px), (Z.add_comm py)].
      apply inside_box_translate, boundingRect_contains.
      by apply elem_of_cons; left.
Qed.



End DetectorProperties.

(** ** The reference instances meet the contract *)

Lemma luma_bt601_u8 p : u8 (luma_bt601 p).
Proof. unfold u8, luma_bt601, saturate_u8. lia. Qed.

Lemma row_points_spec y x0 r p :
  p ∈ row_points y x0 r ->
  snd p = y /\ x0 <= fst p /\
  exists v, r !! Z.to_nat (fst p - x0) = Some v /\ foreground v = true.
Proof.
  revert x0. induction r as [|v r IH]; intros x0; simpl.
  - intros H. by apply elem_of_nil in H.
  - intros H. apply elem_of_app in H as [H|H].
    + destruct (foreground v) eqn:Hv; [|by apply elem_of_nil in H].
      apply list_elem_of_singleton in H. subst p. simpl.
      repeat split; try lia. exists v. by rewrite Z.sub_diag.
    + apply IH in H as (Hy & Hx & u & Hu & Hf).
      repeat split; try lia. exists u. split; [|exact Hf].
      replace (Z.to_nat (fst p - x0)) with (S (Z.to_nat (fst p - (x0 + 1)))) by lia.
      exact Hu.
Qed.

Lemma grid_points_spec y0 (g : list (list Z)) p :
  p ∈ grid_points y0 g ->
  y0 <= snd p /\ 0 <= fst p /\
  exists r v, g !! Z.to_nat (snd p - y0) = Some r /\
              r !! Z.to_nat (fst p) = Some v /\ foreground v = true.
Proof.
  revert y0. induction g as [|r g IH]; intros y0; simpl.
  - intros H. by apply elem_of_nil in H.
  - intros H. apply elem_of_app in H as [H|H].
    + apply row_points_spec in H as (Hy & Hx & v & Hv & Hf).
      repeat split; try lia. exists r, v.
      rewrite Hy, Z.sub_diag. rewrite Z.sub_0_r in Hv. by repeat split.
    + apply IH in H as (Hy & Hx & r' & v & Hr & Hv & Hf).
      repeat split; try lia. exists r', v. repeat split; try assumption.
      replace (Z.to_nat (snd p - y0)) with (S (Z.to_nat (snd p - (y0 + 1)))) by lia.
      exact Hr.
Qed.

Lemma grid_points_on_foreground (g : list (list Z)) p :
  p ∈ grid_points 0 g -> on_foreground g p.
Proof.
  intros H. apply grid_points_spec in H as (Hy & Hx & r & v & Hr & Hv & Hf).
  exists v. split; [|exact Hf]. unfold pixel.
  replace ((fst p <? 0) || (snd p <? 0)) with false
    by (symmetry; apply orb_false_iff; split; lia).
  rewrite Z.sub_0_r in Hr. rewrite Hr. exact Hv.
Qed.

Lemma partition_subseteq {A} (f : A -> bool) l l1 l2 :
  List.partition f l = (l1, l2) -> l1 ⊆ l /\ l2 ⊆ l.
Proof.
  intros H. split; intros x Hx; apply list_elem_of_In;
    apply (List.elements_in_partition f l H); apply list_elem_of_In in Hx; tauto.
Qed.

Lemma grow_spec fuel comp rest c rest' :
  grow fuel comp rest = (c, rest') ->
  c ⊆ comp ++ rest /\ rest' ⊆ rest /\ (comp <> [] -> c <> []).
Proof.
  revert comp rest. induction fuel as [|fuel IH]; intros comp rest; simpl.
  - intros [= <- <-]. repeat split; [|done..]. by apply list_subseteq_app_l.
  - destruct (List.partition _ rest) as [near far] eqn:Hp.
    apply partition_subseteq in Hp as [Hnear Hfar].
    destruct near as [|q near].
    + intros [= <- <-]. repeat split; [|done..]. by apply list_subseteq_app_l.
    + intros H. apply IH in H as (Hc & Hr & Hne).
      repeat split.
      * intros x Hx. apply Hc in Hx.
        rewrite !elem_of_app in *. destruct Hx as [[Hx|Hx]|Hx]; auto.
      * by etrans.
      * intros _. apply Hne. by destruct comp.
Qed.

Lemma components_spec fuel pts :
  Forall (fun c => c <> [] /\ c ⊆ pts) (components fuel pts).
Proof.
  revert pts. induction fuel as [|fuel IH]; intros pts; simpl; [constructor|].
  destruct pts as [|p rest]; [constructor|].
  destruct (grow (length rest) [p] rest) as [c rest'] eqn:Hg.
  apply grow_spec in Hg as (Hc & Hr & Hne).
  constructor.
  - split; [by apply Hne|]. exact Hc.
  - eapply Forall_impl; [|apply IH].
    intros c' [Hne' Hsub]. split; [exact Hne'|].
    intros x Hx. apply Hsub, Hr in Hx. by apply elem_of_cons; right.
Qed.

Lemma findContours_ref_total : findContours_total findContours_ref.
Proof. intros g _. unfold findContours_ref. by eexists. Qed.

Lemma findContours_ref_sound : findContours_sound findContours_ref.
Proof.
  intros g cs. unfold findContours_ref. intros [= <-].
  apply Forall_reverse.
  eapply Forall_impl; [|apply components_spec].
  intros c [Hne Hsub]. split; [exact Hne|].
  apply Forall_forall. intros p Hp.
  apply grid_points_on_foreground, Hsub, list_elem_of_In, Hp.
Qed.

(** ** The detector on the sample images *)

Lemma rectangular_page : rectangular page.
Proof. repeat constructor. Qed.

Lemma rectangular_page_dark_spot : rectangular page_dark_spot.
Proof. repeat constructor. Qed.


(** C2, as stated, fails: from [page] to [page_bright_spot] the middle
    pixel goes from 200 up to 250, and the difference there is 0, not
    [max 0 (250 - 200)], and the method reports no box; from [page] to
    [page_dark_spot] it goes from 200 down to 40, and the pixel is in
    the mask, with difference 160, and is reported. *)
Lemma increase_missed_decrease_flagged :
  pixel (intensities luma_bt601 page None) 1 1 = Some 200 /\
  pixel (intensities luma_bt601 page_bright_spot None) 1 1 = Some 250 /\
  pixel (intensities luma_bt601 page_dark_spot None) 1 1 = Some 40 /\
  (exists diff,
     difference_image luma_bt601 page page_bright_spot None = Ok diff /\
     pixel diff 1 1 = Some 0 /\ Z.max 0 (250 - 200) <> 0) /\
  (exists diff,
     difference_image luma_bt601 page page_dark_spot None = Ok diff /\
     pixel diff 1 1 = Some 160 /\ foreground 160 = true) /\
  find_differences luma_bt601 findContours_ref no_cluster
    page page_bright_spot None = Ok (PyBoxes PyTuple []) /\
  find_differences luma_bt601 findContours_ref no_cluster
    page page_dark_spot None = Ok (PyBoxes NdArray [(1, 1, 1, 1)]).
Proof.
  repeat split; try reflexivity.
  - eexists. repeat split; [reflexivity..|]. vm_compute. discriminate.
  - eexists. repeat split; reflexivity.
Qed.

Lemma difference_is_baseline_minus_capture_witness :
  exists diff,
    difference_image luma_bt601 page page_dark_spot (Some (1, 1, 2, 2)) = Ok diff /\
    forall x y u v,
      pixel (intensities luma_bt601 page (Some (1, 1, 2, 2))) x y = Some u ->
      pixel (intensities luma_bt601 page_dark_spot (Some (1, 1, 2, 2))) x y = Some v ->
      pixel diff x y = Some (Z.max 0 (u - v)) /\
      (foreground (Z.max 0 (u - v)) = true <-> v < u).
Proof.
  apply (difference_is_baseline_minus_capture luma_bt601 page page_dark_spot
           (Some (1, 1, 2, 2)) luma_bt601_u8); reflexivity.
Defined.

Lemma identical_images_no_difference_witness :
  exists d,
    find_differences luma_bt601 findContours_ref no_cluster
      page page (Some (1, 0, 2, 3)) = Ok d /\ items d = [].
Proof.
  apply (identical_images_no_difference luma_bt601 findContours_ref no_cluster
           page (Some (1, 0, 2, 3))
           findContours_ref_total findContours_ref_sound rectangular_page).
  - reflexivity.
  - intros a [= <-]. vm_compute. repeat split; discriminate.
Defined.

Lemma detector_reads_luminance_only_witness :
  page <> page_tinted /\
  find_differences luma_bt601 findContours_ref no_cluster page_dark_spot page None =
  find_differences luma_bt601 findContours_ref no_cluster page_dark_spot page_tinted None /\
  exists d,
    find_differences luma_bt601 findContours_ref no_cluster page page_tinted None = Ok d /\
    items d = [].
Proof.
  split; [discriminate|]. split.
  - apply (detector_reads_luminance_only luma_bt601 findContours_ref no_cluster
             page_dark_spot page page_dark_spot page_tinted None); reflexivity.
  - apply (detector_reads_luminance_only luma_bt601 findContours_ref no_cluster
             page page_tinted page page_tinted None eq_refl eq_refl).
    + exact findContours_ref_total.
    + exact findContours_ref_sound.
    + exact rectangular_page.
    + reflexivity.
    + intros a [=].
    + reflexivity.
Defined.

Lemma boxes_in_image_coordinates_witness :
  exists d diff cs,
    find_differences luma_bt601 findContours_ref no_cluster
      page page_dark_spot (Some (1, 1, 2, 2)) = Ok d /\
    difference_image luma_bt601 page page_dark_spot (Some (1, 1, 2, 2)) = Ok diff /\
    findContours_ref diff = Ok cs /\
    items d =
      map (fun c => (box_x (boundingRect c) + 1, box_y (boundingRect c) + 1,
                     box_w (boundingRect c), box_h (boundingRect c))) cs /\
    Forall (box_within 2 2) (map boundingRect cs) /\
    Forall (fun b =>
              box_inside (1, 1, 2, 2) b /\
              box_within (ncols page) (nrows page) b /\
              exists px py p q,
                inside_box b (px, py) /\
                pixel page px py = Some p /\ pixel page_dark_spot px py = Some q /\
                luma_bt601 q < luma_bt601 p) (items d).
Proof.
  apply (boxes_in_image_coordinates luma_bt601 findContours_ref no_cluster
           page page_dark_spot 1 1 2 2
           findContours_ref_total findContours_ref_sound
           rectangular_page rectangular_page_dark_spot).
  - reflexivity.
  - reflexivity.
  - vm_compute. repeat split; discriminate.
Defined.



(** ** Coordinates *)

Lemma round_at_0 m : round_at 0 m = m.
Proof.
  unfold round_at. rewrite Z.pow_0_r, Z.div_1_r, Z.mod_1_r. simpl. lia.
Qed.

Lemma round_at_mono e m1 m2 :
  0 <= e -> 0 <= m1 <= m2 -> round_at e m1 <= round_at e m2.
Proof.
  intros He Hm. unfold round_at.
  assert (HP : 0 < 2 ^ e) by (apply Z.pow_pos_nonneg; lia).
  set (P := 2 ^ e) in *.
  pose proof (Z.div_mod m1 P ltac:(lia)) as E1.
  pose proof (Z.div_mod m2 P ltac:(lia)) as E2.
  pose proof (Z.mod_pos_bound m1 P HP) as B1.
  pose proof (Z.mod_pos_bound m2 P HP) as B2.
  assert (Hq : m1 / P <= m2 / P) by (apply Z.div_le_mono; lia).
  set (q1 := m1 / P) in *. set (q2 := m2 / P) in *.
  set (r1 := m1 mod P) in *. set (r2 := m2 mod P) in *.
  destruct (Z.ltb_spec P (2 * r1)); destruct (Z.eqb_spec (2 * r1) P);
    destruct (Z.odd q1) eqn:O1;
    destruct (Z.ltb_spec P (2 * r2)); destruct (Z.eqb_spec (2 * r2) P);
    destruct (Z.odd q2) eqn:O2; simpl; try nia;
    destruct (Z.eq_dec q1 q2) as [Eq|Ne]; try nia;
    try (rewrite Eq in *; congruence).
Qed.

Lemma round_at_multiple e c : 0 <= e -> round_at e (c * 2 ^ e) = c * 2 ^ e.
Proof.
  intros He. unfold round_at.
  assert (HP : 0 < 2 ^ e) by (apply Z.pow_pos_nonneg; lia).
  rewrite Z.div_mul, Z.mod_mul by lia.
  destruct (Z.ltb_spec (2 ^ e) (2 * 0)); [lia|].
  destruct (Z.eqb_spec (2 * 0) (2 ^ e)); [lia|]. reflexivity.
Qed.

(** The rounding of a magnitude. *)
Lemma round_magnitude_bounds m :
  0 < m ->
  let e := Z.max 0 (Z.log2 m - 23) in
  2 ^ Z.log2 m <= round_at e m <= 2 ^ (Z.log2 m + 1).
Proof.
  intros Hm e.
  pose proof (Z.log2_nonneg m) as Hk.
  destruct (Z.log2_spec m Hm) as [Hlo Hhi].
  set (k := Z.log2 m) in *.
  assert (He : 0 <= e <= k) by (unfold e; lia).
  assert (E1 : 2 ^ k = 2 ^ (k - e) * 2 ^ e)
    by (rewrite <- Z.pow_add_r by lia; f_equal; lia).
  assert (E2 : 2 ^ (k + 1) = 2 ^ (k + 1 - e) * 2 ^ e)
    by (rewrite <- Z.pow_add_r by lia; f_equal; lia).
  assert (0 < 2 ^ k) by (apply Z.pow_pos_nonneg; lia).
  replace (Z.succ k) with (k + 1) in Hhi by lia.
  split.
  - rewrite E1 at 1. rewrite <- (round_at_multiple e) by lia.
    apply round_at_mono; lia.
  - rewrite E2 at 1. rewrite <- (round_at_multiple e (2 ^ (k + 1 - e))) by lia.
    apply round_at_mono; lia.
Qed.

Lemma round_magnitude_mono m1 m2 :
  0 <= m1 <= m2 ->
  round_at (Z.max 0 (Z.log2 m1 - 23)) m1 <= round_at (Z.max 0 (Z.log2 m2 - 23)) m2.
Proof.
  intros [H1 H12].
  destruct (Z.eq_dec m1 0) as [->|Hne].
  - change (Z.log2 0) with 0. simpl Z.max. rewrite round_at_0.
    destruct (Z.eq_dec m2 0) as [->|Hne2].
    + change (Z.log2 0) with 0. simpl Z.max. by rewrite round_at_0.
    + pose proof (round_magnitude_bounds m2 ltac:(lia)) as [Hlo _].
      assert (0 < 2 ^ Z.log2 m2)
        by (apply Z.pow_pos_nonneg; [lia|apply Z.log2_nonneg]).
      lia.
  - pose proof (Z.log2_le_mono m1 m2 H12) as Hk.
    destruct (Z.eq_dec (Z.log2 m1) (Z.log2 m2)) as [->|Hk'].
    + apply round_at_mono; lia.
    + pose proof (round_magnitude_bounds m1 ltac:(lia)) as [_ Hhi].
      pose proof (round_magnitude_bounds m2 ltac:(lia)) as [Hlo _].
      assert (2 ^ (Z.log2 m1 + 1) <= 2 ^ Z.log2 m2)
        by (apply Z.pow_le_mono_r; lia).
      cbv zeta in *. lia.
Qed.

Lemma round_magnitude_nonneg m :
  0 <= m -> 0 <= round_at (Z.max 0 (Z.log2 m - 23)) m.
Proof.
  intros Hm. pose proof (round_magnitude_mono 0 m ltac:(lia)) as H.
  change (Z.log2 0) with 0 in H. simpl Z.max in H. by rewrite round_at_0 in H.
Qed.

(** Conversion to [float] keeps the order of coordinates. *)
Lemma c_float_mono v w : v <= w -> c_float v <= c_float w.
Proof.
  intros Hvw. unfold c_float.
  pose proof (round_magnitude_nonneg (Z.abs v) (Z.abs_nonneg v)).
  pose proof (round_magnitude_nonneg (Z.abs w) (Z.abs_nonneg w)).
  destruct (Z.sgn_spec v) as [[Hv ->]|[[Hv ->]|[Hv ->]]];
    destruct (Z.sgn_spec w) as [[Hw ->]|[[Hw ->]|[Hw ->]]]; try lia.
  - pose proof (round_magnitude_mono (Z.abs v) (Z.abs w) ltac:(lia)). lia.
  - pose proof (round_magnitude_mono (Z.abs w) (Z.abs v) ltac:(lia)). lia.
Qed.

(** A coordinate of magnitude below [2 ^ 24] is not changed. *)
Lemma c_coord_exact v : exact_coord v -> c_int (c_float v) = v.
Proof.
  intros Hv. unfold exact_coord in Hv.
  assert (Hf : c_float v = v).
  { unfold c_float.
    assert (He : Z.max 0 (Z.log2 (Z.abs v) - 23) = 0).
    { destruct (Z.eq_dec v 0) as [->|Hne]; [reflexivity|].
      assert (Z.log2 (Z.abs v) < 24) by (apply Z.log2_lt_pow2; lia). lia. }
    rewrite He, round_at_0. lia. }
  rewrite Hf. unfold c_int.
  destruct (Z.leb_spec (- 2 ^ 31) v); [|lia].
  destruct (Z.ltb_spec v (2 ^ 31)); [reflexivity|lia].
Qed.

Lemma c_rect_exact x0 y0 x1 y1 :
  x0 <= x1 -> y0 <= y1 ->
  exact_coord x0 -> exact_coord y0 -> exact_coord x1 -> exact_coord y1 ->
  c_rect (x0, y0, x1, y1) = (x0, y0, x1, y1).
Proof.
  intros Hx Hy E0 E1 E2 E3. unfold c_rect.
  rewrite !c_coord_exact by assumption.
  by rewrite !Z.min_l, !Z.max_r by lia.
Qed.

(** ** The object store *)

Section Store.

Variables (h ext : list pyobj).

Lemma load_old l o : h !! l = Some o -> load l (h ++ ext) = (Ok o, h ++ ext).
Proof. intros H. unfold load. by rewrite (lookup_app_l_Some _ _ _ _ H). Qed.

Lemma load_new k o :
  ext !! k = Some o -> load (length h + k)%nat (h ++ ext) = (Ok o, h ++ ext).
Proof.
  intros H. unfold load. rewrite lookup_app_r by lia.
  replace (length h + k - length h)%nat with k by lia. by rewrite H.
Qed.

Lemma alloc_new o :
  alloc o (h ++ ext) = (Ok (length h + length ext)%nat, h ++ (ext ++ [o])).
Proof. unfold alloc. by rewrite length_app, app_assoc. Qed.

Lemma store_new k o :
  store (length h + k)%nat o (h ++ ext) = (Ok tt, h ++ <[k:=o]> ext).
Proof. unfold store. by rewrite insert_app_r. Qed.

End Store.

(** ** Painting *)

Lemma nrows_paint_rect area c g : nrows (paint_rect area c g) = nrows g.
Proof. unfold nrows, paint_rect. by rewrite length_imap. Qed.

Lemma ncols_paint_rect area c g : ncols (paint_rect area c g) = ncols g.
Proof. destruct g; simpl; [reflexivity|]. by rewrite length_imap. Qed.

Lemma pixel_paint_rect area c g x y :
  pixel (paint_rect area c g) x y =
    (fun p => if in_rect area x y then c else p) <$> pixel g x y.
Proof.
  unfold pixel, paint_rect.
  destruct ((x <? 0) || (y <? 0)) eqn:E; [reflexivity|].
  apply orb_false_iff in E as [Ex Ey].
  rewrite list_lookup_imap.
  destruct (g !! Z.to_nat y) as [r|]; simpl; [|reflexivity].
  rewrite list_lookup_imap. rewrite !Z2Nat.id by lia. reflexivity.
Qed.

Lemma nrows_paint_all rects c g :
  nrows (foldl (fun g area => paint_rect area c g) g rects) = nrows g.
Proof.
  revert g. induction rects as [|r rects IH]; intros g; simpl; [reflexivity|].
  by rewrite IH, nrows_paint_rect.
Qed.

Lemma ncols_paint_all rects c g :
  ncols (foldl (fun g area => paint_rect area c g) g rects) = ncols g.
Proof.
  revert g. induction rects as [|r rects IH]; intros g; simpl; [reflexivity|].
  by rewrite IH, ncols_paint_rect.
Qed.

Lemma pixel_paint_all rects c g x y :
  pixel (foldl (fun g area => paint_rect area c g) g rects) x y =
    (fun p => if existsb (fun area => in_rect area x y) rects then c else p)
      <$> pixel g x y.
Proof.
  revert g. induction rects as [|r rects IH]; intros g; simpl.
  - by destruct (pixel g x y).
  - rewrite IH, pixel_paint_rect.
    destruct (pixel g x y) as [p|]; simpl; [|reflexivity].
    destruct (in_rect r x y); simpl; [|reflexivity].
    by destruct (existsb _ rects).
Qed.

Lemma pixel_replicate {A} (c : A) (W H : nat) x y :
  0 <= x < Z.of_nat W -> 0 <= y < Z.of_nat H ->
  pixel (replicate H (replicate W c)) x y = Some c.
Proof.
  intros Hx Hy. unfold pixel.
  replace ((x <? 0) || (y <? 0)) with false
    by (symmetry; apply orb_false_iff; split; lia).
  rewrite lookup_replicate_2 by lia. simpl.
  by rewrite lookup_replicate_2 by lia.
Qed.

Lemma nrows_replicate {A} (r : list A) (H : nat) :
  nrows (replicate H r) = Z.of_nat H.
Proof. unfold nrows. by rewrite length_replicate. Qed.

Lemma ncols_replicate {A} (c : A) (W H : nat) :
  (0 < H)%nat -> ncols (replicate H (replicate W c)) = Z.of_nat W.
Proof. destruct H; [lia|]. intros _. simpl. by rewrite length_replicate. Qed.

(** A pixel of a proper array lies within its shape. *)
Lemma pixel_in_shape {A} (g : list (list A)) x y v :
  rectangular g -> pixel g x y = Some v -> 0 <= x < ncols g /\ 0 <= y < nrows g.
Proof.
  intros Hrect Hp. apply pixel_Some in Hp as (Hx & Hy & r & Hr & Hv).
  pose proof (Forall_lookup_1 _ _ _ _ Hrect Hr) as Hlen. simpl in Hlen.
  apply lookup_lt_Some in Hr, Hv. unfold nrows. lia.
Qed.

(** ** The renderer *)

Lemma painted_rectangles_formula diffs :
  painted_rectangles diffs =
    map (fun b => (box_x b - 5, box_y b - 5,
                   box_x b + box_w b + 5, box_y b + box_h b + 5)) diffs.
Proof.
  unfold painted_rectangles. rewrite map_map. apply map_ext.
  by intros [[[x y] w] h].
Qed.

Lemma painted_rectangles_ordered diffs :
  drawable diffs -> Forall ordered (painted_rectangles diffs).
Proof.
  intros H. unfold painted_rectangles. apply Forall_fmap, Forall_fmap.
  eapply Forall_impl; [|exact H]. intros [[[x y] w] hh]. simpl. lia.
Qed.

(** Rectangles of small coordinates reach the rasteriser as they are. *)
Lemma painted_rectangles_exact diffs :
  drawable diffs -> paintable diffs ->
  map c_rect (painted_rectangles diffs) = painted_rectangles diffs.
Proof.
  intros Hd Hp. rewrite painted_rectangles_formula, map_map.
  induction Hd as [|[[[x y] w] hh] diffs [Hw Hh] _ IH]; [reflexivity|].
  inversion Hp as [|? ? (E0 & E1 & E2 & E3) Hp']; subst. simpl in *.
  rewrite IH by assumption. f_equal.
  apply c_rect_exact; try assumption; lia.
Qed.

Lemma existsb_map {A B} (f : A -> B) (P : B -> bool) (l : list A) :
  existsb P (map f l) = existsb (fun a => P (f a)) l.
Proof. induction l as [|a l IH]; simpl; [reflexivity|]. by rewrite IH. Qed.

Lemma covered_by_painted diffs x y :
  existsb (fun area => in_rect area x y) (painted_rectangles diffs) =
  existsb (fun b => covers b x y) diffs.
Proof.
  rewrite painted_rectangles_formula, existsb_map. reflexivity.
Qed.

Lemma blank_shape a :
  mat_empty a = false -> nrows (blank a) = nrows a /\ ncols (blank a) = ncols a.
Proof.
  intros Hne. unfold mat_empty in Hne. apply orb_false_iff in Hne as [Hr Hc].
  apply Z.eqb_neq in Hr, Hc.
  assert (0 <= nrows a) by (unfold nrows; lia).
  assert (0 <= ncols a) by (destruct a; simpl; lia).
  unfold blank. rewrite nrows_replicate, ncols_replicate by lia. lia.
Qed.

Lemma highlight_layer_shape a diffs :
  mat_empty a = false ->
  nrows (highlight_layer a diffs) = nrows a /\
  ncols (highlight_layer a diffs) = ncols a.
Proof.
  intros Hne. unfold highlight_layer. rewrite nrows_paint_all, ncols_paint_all.
  by apply blank_shape.
Qed.

(** Painting the rectangles one after the other on the layer at
    [length h + 2]. *)
Lemma for_each_rectangle (h : list pyobj) o1 o2 g rects :
  Forall ordered rects ->
  for_each rects
    (fun area => draw_rectangle (length h + 2)%nat area (RGBA 0 255 0 50))
    (h ++ [o1; o2; PilImage (PIL ModeRGBA g)]) =
  (Ok tt,
   h ++ [o1; o2;
         PilImage (PIL ModeRGBA
           (foldl (fun g area => paint_rect area (RGBA 0 255 0 50) g) g
                  (map c_rect rects)))]).
Proof.
  intros Hr. revert g. induction Hr as [|r rects Hr0 _ IH]; intros g; simpl.
  - reflexivity.
  - unfold mbind, stx_bind. unfold draw_rectangle at 1. unfold mbind, stx_bind.
    rewrite (load_new h _ 2 (PilImage (PIL ModeRGBA g))) by reflexivity.
    destruct r as [[[x0 y0] x1] y1]. destruct Hr0 as [Hx Hy].
    pose proof (c_float_mono _ _ Hx). pose proof (c_float_mono _ _ Hy).
    replace ((c_float x1 <? c_float x0) || (c_float y1 <? c_float y0)) with false
      by (symmetry; apply orb_false_iff; split; lia).
    rewrite store_new. simpl. apply IH.
Qed.

(** The same with a painter that checks the rectangles: it paints as
    long as they pass the test. *)
Lemma for_each_checked ok (h : list pyobj) o1 o2 g rects :
  Forall ordered rects ->
  exists r g',
    for_each rects
      (fun area => checked_rectangle ok (length h + 2)%nat area (RGBA 0 255 0 50))
      (h ++ [o1; o2; PilImage (PIL ModeRGBA g)]) =
    (r, h ++ [o1; o2; PilImage (PIL ModeRGBA g')]) /\
    nrows g' = nrows g /\ ncols g' = ncols g /\
    (is_Ok r <-> Forall (fun area => ok area = true) rects).
Proof.
  intros Hr. revert g. induction Hr as [|r rects Hr0 _ IH]; intros g; simpl.
  - exists (Ok tt), g. repeat split; try done. by eexists.
  - unfold mbind, stx_bind. unfold checked_rectangle at 1.
    destruct (ok r) eqn:Hok.
    + unfold draw_rectangle at 1. unfold mbind, stx_bind.
      rewrite (load_new h _ 2 (PilImage (PIL ModeRGBA g))) by reflexivity.
      destruct r as [[[x0 y0] x1] y1]. destruct Hr0 as [Hx Hy].
      pose proof (c_float_mono _ _ Hx). pose proof (c_float_mono _ _ Hy).
      replace ((c_float x1 <? c_float x0) || (c_float y1 <? c_float y0)) with false
        by (symmetry; apply orb_false_iff; split; lia).
      rewrite store_new. cbn [list_insert insert mode].
      destruct (IH (paint_rect (c_rect (x0, y0, x1, y1)) (RGBA 0 255 0 50) g))
        as (r & g' & Hrun & Hn & Hc & Hiff).
      exists r, g'. split; [exact Hrun|].
      rewrite Hn, Hc, nrows_paint_rect, ncols_paint_rect.
      split; [reflexivity|]. split; [reflexivity|].
      rewrite Hiff. split; [by constructor|]. by inversion 1.
    + exists (Err ValueError), g. split; [reflexivity|].
      split; [reflexivity|]. split; [reflexivity|]. split.
      * intros [? [=]].
      * inversion 1; congruence.
Qed.

Lemma putalpha_fromarray a :
  map (map (set_alpha 255))
    (map (map (fun p => RGBA (rgb_r p) (rgb_g p) (rgb_b p) 255))
       (map (map (fun p => RGB (red p) (green p) (blue p))) a)) = as_rgba a.
Proof.
  unfold as_rgba. rewrite !map_map. apply map_ext. intros r.
  rewrite !map_map. apply map_ext. by intros p.
Qed.

Lemma as_rgba_shape a :
  nrows (as_rgba a) = nrows a /\ ncols (as_rgba a) = ncols a.
Proof. unfold as_rgba. by rewrite nrows_map, ncols_map. Qed.

(** The run of [draw_differences] up to the painting, whatever the
    painter: the base image in RGB order, the same as an RGBA image and
    a transparent layer of its size are appended to the store, the
    painter is asked for the grown rectangles on the layer, and the two
    images are composed. *)
Lemma draw_differences_prefix rectangle (h : list pyobj) base a diffs :
  h !! base = Some (NdBGR a) -> mat_empty a = false ->
  draw_differences rectangle base diffs h =
    (_ ← for_each (painted_rectangles diffs)
           (fun area => rectangle (length h + 2)%nat area (RGBA 0 255 0 50));
     img ← Image_alpha_composite (length h + 1)%nat (length h + 2)%nat;
     mret img)
    (h ++ [NdRGB (map (map (fun p => RGB (red p) (green p) (blue p))) a);
           PilImage (PIL ModeRGBA (as_rgba a));
           PilImage (PIL ModeRGBA (blank a))]).
Proof.
  intros Hbase Hne.
  unfold draw_differences.
  rewrite <- (app_nil_r h) at 1.
  unfold mbind at 1 2 3 4 5. unfold stx_bind at 1 2 3 4 5.
  unfold cvtColor_BGR2RGB, mbind, stx_bind.
  rewrite (load_old h [] base _ Hbase), Hne, alloc_new. cbn [length app].
  unfold Image_fromarray, mbind, stx_bind.
  erewrite (load_new h _ 0) by reflexivity. cbv beta iota. rewrite alloc_new. cbn [length app].
  unfold putalpha, mbind, stx_bind.
  erewrite (load_new h _ 1) by reflexivity. cbv beta iota. rewrite store_new.
  cbn [list_insert insert pixels].
  unfold Image_size, mbind, stx_bind.
  erewrite (load_new h _ 1) by reflexivity. cbv beta iota.
  unfold mret, stx_ret, Image_new_RGBA. rewrite alloc_new. cbn [length app].
  rewrite putalpha_fromarray. unfold pil_size. cbn [pixels fst snd].
  destruct (as_rgba_shape a) as [-> ->].
  reflexivity.
Qed.

Lemma composite_step (h : list pyobj) o1 g1 g2 :
  same_shape g1 g2 = true ->
  (img ← Image_alpha_composite (length h + 1)%nat (length h + 2)%nat; mret img)
    (h ++ [o1; PilImage (PIL ModeRGBA g1); PilImage (PIL ModeRGBA g2)]) =
  (Ok (length h + 3)%nat,
   h ++ [o1; PilImage (PIL ModeRGBA g1); PilImage (PIL ModeRGBA g2);
         PilImage (PIL ModeRGBA (zip_with (zip_with composite_px) g1 g2))]).
Proof.
  intros Hs. unfold Image_alpha_composite, mbind, stx_bind.
  erewrite (load_new h _ 1) by reflexivity.
  erewrite (load_new h _ 2) by reflexivity. cbv beta iota.
  cbn [pixels is_RGBA mode andb]. rewrite Hs, alloc_new. reflexivity.
Qed.

(** The run of [draw_differences] with Pillow's painter: three scratch
    objects and the result are appended to the store. *)
Lemma draw_differences_run (h : list pyobj) base a diffs :
  h !! base = Some (NdBGR a) -> mat_empty a = false -> drawable diffs ->
  draw_differences draw_rectangle base diffs h =
    (Ok (length h + 3)%nat,
     h ++ [NdRGB (map (map (fun p => RGB (red p) (green p) (blue p))) a);
           PilImage (PIL ModeRGBA (as_rgba a));
           PilImage (PIL ModeRGBA (highlight_layer a diffs));
           PilImage (PIL ModeRGBA (rendered a diffs))]).
Proof.
  intros Hbase Hne Hdraw.
  destruct (highlight_layer_shape a diffs Hne) as [Hn Hc].
  rewrite (draw_differences_prefix _ h base a diffs Hbase Hne).
  unfold mbind at 1. unfold stx_bind at 1.
  rewrite (for_each_rectangle h _ _ _ _ (painted_rectangles_ordered diffs Hdraw)).
  fold (highlight_layer a diffs).
  apply composite_step.
  unfold same_shape. destruct (as_rgba_shape a) as [-> ->].
  rewrite Hn, Hc, !Z.eqb_refl. reflexivity.
Qed.

Lemma rendered_shape a diffs :
  mat_empty a = false ->
  nrows (rendered a diffs) = nrows a /\ ncols (rendered a diffs) = ncols a.
Proof.
  intros Hne. destruct (highlight_layer_shape a diffs Hne) as [Hn Hc].
  destruct (as_rgba_shape a) as [Hn' Hc']. unfold rendered.
  rewrite nrows_zip_with, ncols_zip_with by congruence. by split.
Qed.

(** A pixel of the result: the pixel of the base image under the
    highlight colour where a rectangle covers it as the rasteriser
    receives it, the pixel of the base image elsewhere. *)
Lemma pixel_rendered a diffs x y p :
  rectangular a -> pixel a x y = Some p ->
  pixel (rendered a diffs) x y =
    Some (composite_px (RGBA (red p) (green p) (blue p) 255)
            (if existsb (fun area => in_rect area x y)
                        (map c_rect (painted_rectangles diffs))
             then RGBA 0 255 0 50 else RGBA 0 0 0 0)).
Proof.
  intros Hrect Hp. destruct (pixel_in_shape a x y p Hrect Hp) as [Hx Hy].
  unfold rendered, highlight_layer, as_rgba, blank.
  rewrite pixel_zip_with, pixel_map, Hp, pixel_paint_all.
  rewrite pixel_replicate by lia. reflexivity.
Qed.

Lemma rendered_nil a : rectangular a -> rendered a [] = as_rgba a.
Proof.
  intros Hrect. unfold rendered, highlight_layer, blank. simpl.
  unfold rectangular in Hrect.
  assert (Hw : Forall (fun r => length r = Z.to_nat (ncols a)) (as_rgba a)).
  { unfold as_rgba. apply Forall_fmap. eapply Forall_impl; [|exact Hrect].
    intros r Hr. unfold compose. rewrite length_map. cbv beta in Hr. lia. }
  unfold nrows. rewrite Nat2Z.id.
  replace (length a) with (length (as_rgba a)) by (unfold as_rgba; apply length_map).
  generalize dependent (as_rgba a). intros g Hw.
  induction Hw as [|r g Hr _ IH]; simpl; [reflexivity|].
  f_equal; [|exact IH].
  rewrite <- Hr. clear. induction r as [|p r IH]; simpl; [reflexivity|].
  by rewrite IH.
Qed.

(** C6: the renderer returns a new image of the width and height of the
    base image; with no box its pixels are those of the base image in
    RGB order with alpha 255; every object that was in the store before
    the call, the base image among them, is still there unchanged. *)
Theorem draw_differences_keeps_size_and_base (h : list pyobj) base a diffs :
  h !! base = Some (NdBGR a) -> rectangular a -> mat_empty a = false ->
  drawable diffs ->
  exists out im h',
    draw_differences draw_rectangle base diffs h = (Ok out, h') /\
    h' !! out = Some (PilImage im) /\
    nrows (pixels im) = nrows a /\ ncols (pixels im) = ncols a /\
    (diffs = [] -> pixels im = as_rgba a) /\
    h !! out = None /\
    (forall l o, h !! l = Some o -> h' !! l = Some o).
Proof.
  intros Hbase Hrect Hne Hdraw.
  destruct (rendered_shape a diffs Hne) as [Hn Hc].
  eexists _, (PIL ModeRGBA (rendered a diffs)), _.
  split; [by apply draw_differences_run|].
  split; [by rewrite (lookup_app_r h) by lia;
             replace (length h + 3 - length h)%nat with 3%nat by lia|].
  repeat split; try assumption.
  - intros ->. by apply rendered_nil.
  - apply lookup_ge_None. lia.
  - intros l o Hl. by apply lookup_app_l_Some.
Qed.

Lemma in_rect_clamp W H area x y :
  0 <= x < W -> 0 <= y < H ->
  in_rect (clamp_rect W H area) x y = in_rect area x y.
Proof.
  intros Hx Hy. destruct area as [[[x0 y0] x1] y1]. unfold in_rect, clamp_rect.
  destruct (x0 <=? x) eqn:E1, (x <=? x1) eqn:E2, (y0 <=? y) eqn:E3,
    (y <=? y1) eqn:E4; simpl;
    repeat match goal with
           | |- context [?a <=? ?b] => destruct (Z.leb_spec a b); simpl
           end; try reflexivity; lia.
Qed.

Lemma covered_clamped W H diffs x y :
  0 <= x < W -> 0 <= y < H ->
  existsb (fun b => covers b x y) diffs =
  existsb (fun b =>
             in_rect (clamp_rect W H
                        (box_x b - 5, box_y b - 5,
                         box_x b + box_w b + 5, box_y b + box_h b + 5))
                     x y) diffs.
Proof.
  intros Hx Hy. induction diffs as [|b diffs IH]; cbn [existsb]; [reflexivity|].
  rewrite IH, in_rect_clamp by assumption. reflexivity.
Qed.

(** C7, as amended: every box [(x, y, w, h)] is grown by 5 pixels on its
    four sides into the rectangle with corners [(x - 5, y - 5)] and
    [(x + w + 5, y + h + 5)], and this rectangle is what the painter is
    asked for, not clamped to the image: with a painter that tests the
    rectangles it is given, the call succeeds exactly when every grown
    rectangle passes the test, so it fails with a painter that accepts
    only rectangles inside the image as soon as a box is less than 5
    pixels from a border.  Pillow's painter writes the part of a
    rectangle that lies inside the image: a pixel of the result is
    highlighted exactly when one of the grown rectangles covers it,
    which is the region that the rectangles clamped to the image bounds
    cover. *)
Theorem padded_rectangles_painted_unclamped (h : list pyobj) base a diffs :
  h !! base = Some (NdBGR a) -> rectangular a -> mat_empty a = false ->
  drawable diffs ->
  (forall ok,
     is_Ok (fst (draw_differences (checked_rectangle ok) base diffs h)) <->
     Forall (fun b => ok (box_x b - 5, box_y b - 5,
                          box_x b + box_w b + 5, box_y b + box_h b + 5) = true)
            diffs) /\
  (paintable diffs ->
   exists out im h',
     draw_differences draw_rectangle base diffs h = (Ok out, h') /\
     h' !! out = Some (PilImage im) /\
     forall x y p, pixel a x y = Some p ->
       let covered := existsb (fun b => covers b x y) diffs in
       pixel (pixels im) x y =
         Some (composite_px (RGBA (red p) (green p) (blue p) 255)
                 (if covered then RGBA 0 255 0 50 else RGBA 0 0 0 0)) /\
       covered =
         existsb (fun b =>
                    in_rect (clamp_rect (ncols a) (nrows a)
                               (box_x b - 5, box_y b - 5,
                                box_x b + box_w b + 5, box_y b + box_h b + 5))
                            x y) diffs).
Proof.
  intros Hbase Hrect Hne Hdraw. split.
  - intros ok.
    rewrite (draw_differences_prefix _ h base a diffs Hbase Hne).
    unfold mbind at 1. unfold stx_bind at 1.
    destruct (for_each_checked ok h
                (NdRGB (map (map (fun p => RGB (red p) (green p) (blue p))) a))
                (PilImage (PIL ModeRGBA (as_rgba a))) (blank a)
                (painted_rectangles diffs) (painted_rectangles_ordered diffs Hdraw))
      as (r & g' & -> & Hn & Hc & Hiff).
    rewrite painted_rectangles_formula, Forall_fmap in Hiff.
    rewrite <- Hiff. destruct r as [[]|e].
    + rewrite composite_step.
      * split; intros _; by eexists.
      * destruct (blank_shape a Hne) as [Hbn Hbc].
        unfold same_shape. destruct (as_rgba_shape a) as [-> ->].
        rewrite Hn, Hc, Hbn, Hbc, !Z.eqb_refl. reflexivity.
    + simpl. split; intros [? [=]].
  - intros Hpaint.
    eexists _, (PIL ModeRGBA (rendered a diffs)), _.
    split; [by apply draw_differences_run|].
    split; [by rewrite (lookup_app_r h) by lia;
               replace (length h + 3 - length h)%nat with 3%nat by lia|].
    intros x y p Hp. cbv zeta. cbn [pixels]. split.
    + rewrite (pixel_rendered a diffs x y p Hrect Hp).
      by rewrite painted_rectangles_exact, covered_by_painted.
    + destruct (pixel_in_shape a x y p Hrect Hp). by apply covered_clamped.
Qed.

(** C7, as stated, fails: for the box [(0, 0, 1, 1)] in the corner of
    the 3 x 3 page the painter is asked for the rectangle
    [(-5, -5, 6, 6)], whose corners are outside the image: a painter
    that accepts only rectangles inside the image refuses the call, a
    painter that accepts this rectangle and no other performs it. *)
Lemma border_box_not_clamped :
  box_within (ncols page) (nrows page) (0, 0, 1, 1) /\
  fst (draw_differences
         (checked_rectangle (corners_within (ncols page) (nrows page)))
         0%nat [(0, 0, 1, 1)] [NdBGR page]) = Err ValueError /\
  fst (draw_differences
         (checked_rectangle (fun area => bool_decide (area = (-5, -5, 6, 6))))
         0%nat [(0, 0, 1, 1)] [NdBGR page]) = Ok 4%nat /\
  ~ (0 <= -5 < ncols page) /\ ~ (0 <= 6 < ncols page) /\
  fst (draw_differences draw_rectangle 0%nat [(0, 0, 1, 1)] [NdBGR page]) = Ok 4%nat.
Proof.
  split; [vm_compute; repeat split; discriminate|].
  split; [reflexivity|]. split; [reflexivity|].
  split; [lia|]. split; [vm_compute; intros [_ H]; discriminate H|].
  reflexivity.
Qed.

Lemma drawable_one : drawable [(1, 1, 1, 1)].
Proof. repeat constructor; discriminate. Qed.

Lemma paintable_one : paintable [(1, 1, 1, 1)].
Proof. repeat constructor. Qed.

Lemma draw_differences_keeps_size_and_base_witness :
  exists out im h',
    draw_differences draw_rectangle 0%nat [] [NdBGR page] = (Ok out, h') /\
    h' !! out = Some (PilImage im) /\
    nrows (pixels im) = nrows page /\ ncols (pixels im) = ncols page /\
    (@nil box = [] -> pixels im = as_rgba page) /\
    [NdBGR page] !! out = None /\
    (forall l o, [NdBGR page] !! l = Some o -> h' !! l = Some o).
Proof.
  apply (draw_differences_keeps_size_and_base [NdBGR page] 0%nat page []
           eq_refl rectangular_page eq_refl).
  constructor.
Defined.

Lemma padded_rectangles_painted_unclamped_witness :
  (is_Ok (fst (draw_differences
                 (checked_rectangle (corners_within (ncols page) (nrows page)))
                 0%nat [(1, 1, 1, 1)] [NdBGR page])) <->
   Forall (fun b => corners_within (ncols page) (nrows page)
                      (box_x b - 5, box_y b - 5,
                       box_x b + box_w b + 5, box_y b + box_h b + 5) = true)
          [(1, 1, 1, 1)]) /\
  exists out im h',
    draw_differences draw_rectangle 0%nat [(1, 1, 1, 1)] [NdBGR page] = (Ok out, h') /\
    h' !! out = Some (PilImage im) /\
    forall x y p, pixel page x y = Some p ->
      let covered := existsb (fun b => covers b x y) [(1, 1, 1, 1)] in
      pixel (pixels im) x y =
        Some (composite_px (RGBA (red p) (green p) (blue p) 255)
                (if covered then RGBA 0 255 0 50 else RGBA 0 0 0 0)) /\
      covered =
        existsb (fun b =>
                   in_rect (clamp_rect (ncols page) (nrows page)
                              (box_x b - 5, box_y b - 5,
                               box_x b + box_w b + 5, box_y b + box_h b + 5))
                           x y) [(1, 1, 1, 1)].
Proof.
  split.
  - apply (proj1 (padded_rectangles_painted_unclamped [NdBGR page] 0%nat page
                    [(1, 1, 1, 1)] eq_refl rectangular_page eq_refl drawable_one)).
  - apply (proj2 (padded_rectangles_painted_unclamped [NdBGR page] 0%nat page
                    [(1, 1, 1, 1)] eq_refl rectangular_page eq_refl drawable_one)
             paintable_one).
Defined.

(** ** The monitor loop *)

(** *** Bounds on requests and comparisons *)

Lemma comparisons_app t ev :
  comparisons (t ++ [ev]) =
    comparisons t ++ match ev with
                     | Compared a b _ => [(a, b)]
                     | _ => []
                     end.
Proof.
  unfold comparisons. rewrite omap_app. by destruct ev.
Qed.

Lemma within_weaken {A} k c k' c' (m : stx mstate A) :
  within k c m -> (k <= k')%nat -> (c <= c')%nat -> within k' c' m.
Proof. intros H Hk Hc s. destruct (H s). lia. Qed.

Lemma within_ret {A} (a : A) : within 0 0 (mret a : stx mstate A).
Proof. intros s. simpl. lia. Qed.

Lemma within_raise {A} e : within 0 0 (raise e : stx mstate A).
Proof. intros s. simpl. lia. Qed.

Lemma within_lift {A} (r : result A) : within 0 0 (lift r : stx mstate A).
Proof. intros s. simpl. lia. Qed.

Lemma within_bind {A B} k1 c1 k2 c2 (m : stx mstate A) (f : A -> stx mstate B) :
  within k1 c1 m -> (forall a, within k2 c2 (f a)) ->
  within (k1 + k2) (c1 + c2) (m ≫= f).
Proof.
  intros Hm Hf s. unfold mbind, stx_bind. specialize (Hm s).
  destruct (m s) as [[a|e] s1]; simpl in *; [|lia].
  destruct (Hf a s1). lia.
Qed.

Lemma within_if {A} k1 c1 k2 c2 (b : bool) (m1 m2 : stx mstate A) :
  within k1 c1 m1 -> within k2 c2 m2 ->
  within (k1 + k2) (c1 + c2) (if b then m1 else m2).
Proof. intros H1 H2. destruct b; eapply within_weaken; eauto; lia. Qed.

Lemma within_try_except {A} k1 c1 k2 c2 (m : stx mstate A) handler :
  within k1 c1 m -> (forall e, within k2 c2 (handler e)) ->
  within (k1 + k2) (c1 + c2) (try_except m handler).
Proof.
  intros Hm Hh s. unfold try_except. specialize (Hm s).
  destruct (m s) as [[a|e] s1]; simpl in *; [lia|].
  destruct (is_Exception e); simpl; [|lia].
  destruct (Hh e s1). lia.
Qed.

Lemma within_try_finally {A} k1 c1 k2 c2 (m : stx mstate A) fin :
  within k1 c1 m -> within k2 c2 fin ->
  within (k1 + k2) (c1 + c2) (try_finally m fin).
Proof.
  intros Hm Hf s. unfold try_finally. specialize (Hm s).
  destruct (m s) as [r s1]. specialize (Hf s1). simpl in *.
  destruct (fin s1) as [[[c|]|e] s2]; simpl in *; lia.
Qed.

Lemma within_while_true k c fuel (m : stx mstate ctl) :
  within k c m -> within (fuel * k) (fuel * c) (while_true fuel m).
Proof.
  intros Hm. induction fuel as [|fuel IH]; simpl.
  - apply within_ret.
  - apply within_bind; [exact Hm|].
    intros [|]; [exact IH|]. eapply within_weaken; [apply within_ret|lia..].
Qed.

Lemma within_emit ev :
  within 0 (match ev with Compared _ _ _ => 1 | _ => 0 end) (emit ev).
Proof.
  intros s. simpl. rewrite comparisons_app, length_app.
  destruct ev; simpl; lia.
Qed.

Lemma within_set_img1 v : within 0 0 (set_img1 v).
Proof. intros s. simpl. lia. Qed.

Lemma within_set_img2 v : within 0 0 (set_img2 v).
Proof. intros s. simpl. lia. Qed.

Lemma within_get_img1 : within 0 0 get_img1.
Proof. intros s. unfold get_img1. destruct (img1 s); simpl; lia. Qed.

Lemma within_get_img2 : within 0 0 get_img2.
Proof. intros s. unfold get_img2. destruct (img2 s); simpl; lia. Qed.

Lemma within_del_img2 : within 0 0 del_img2.
Proof. intros s. unfold del_img2. destruct (img2 s); simpl; lia. Qed.

Section MonitorProperties.

Variable luma : bgr -> Z.
Variable findContours : list (list Z) -> result (list contour).
Variable cluster : list box -> Z -> Z -> list box * list Z.
Variable w : world.

Local Abbreviation monitor := (monitor_url_for_changes luma findContours cluster w).
Local Abbreviation body := (loop_body luma findContours cluster w).

Lemma within_url_to_img : within 1 0 (url_to_img w).
Proof.
  intros s. unfold url_to_img.
  destruct (driver_open s); [destruct (capture w (calls s))|]; simpl;
    rewrite ?comparisons_app, ?length_app; simpl; lia.
Qed.

Lemma within_save_png v : within 0 0 (save_png w v).
Proof.
  intros s. unfold save_png.
  destruct v; [|destruct (save_outcome w (calls s))]; simpl;
    rewrite ?comparisons_app, ?length_app; simpl; lia.
Qed.

Lemma within_open_viewer : within 0 0 (open_viewer w).
Proof.
  intros s. unfold open_viewer.
  destruct (open_outcome w (calls s)); simpl;
    rewrite ?comparisons_app, ?length_app; simpl; lia.
Qed.

Lemma within_sleep interval : within 0 0 (sleep w interval).
Proof.
  intros s. unfold sleep.
  destruct (sleep_outcome w (calls s)); simpl;
    rewrite ?comparisons_app, ?length_app; simpl; lia.
Qed.

Lemma within_driver_quit : within 0 0 (driver_quit w).
Proof.
  intros s. unfold driver_quit.
  destruct (quit_outcome w (calls s)); simpl;
    rewrite ?comparisons_app, ?length_app; simpl; lia.
Qed.

Ltac within_step :=
  first
    [ apply within_ret | apply within_lift | apply within_set_img1
    | apply within_set_img2 | apply within_get_img1 | apply within_get_img2
    | apply within_del_img2 | apply within_url_to_img | apply within_save_png
    | apply within_open_viewer | apply within_sleep | apply within_driver_quit
    | apply (within_emit (Compared _ _ _)) | apply (within_emit (Printed _))
    | eapply within_if
    | eapply within_bind; [|intros ?] ].

Lemma within_loop_body interval : within 1 1 (body interval).
Proof.
  unfold loop_body.
  eapply within_weaken.
  - eapply within_try_finally; [eapply within_try_except; [|intros e]|].
    + unfold try_clause, publish. repeat within_step.
    + unfold except_clause. repeat within_step.
    + unfold finally_clause. repeat within_step.
  - simpl. lia.
  - simpl. lia.
Qed.

(** A run makes at most two requests and one comparison. *)
Lemma within_monitor interval : within 2 1 (monitor interval 1).
Proof.
  unfold monitor_url_for_changes.
  eapply within_weaken.
  - eapply within_bind; [apply within_url_to_img|intros v].
    eapply within_bind; [apply within_set_img1|intros _].
    apply (within_while_true 1 1 1), within_loop_body.
  - simpl. lia.
  - simpl. lia.
Qed.

(** *** One round *)

(** The loop body never asks for another round: it raises or
    breaks. *)
Lemma loop_body_never_continues interval s :
  fst (body interval s) <> Ok Continue.
Proof.
  unfold loop_body, try_finally.
  destruct (try_except _ _ s) as [r s1].
  unfold finally_clause, mbind, mret, stx_bind, stx_ret.
  destruct (del_img2 s1) as [[[]|e] s2]; simpl; [|discriminate].
  destruct (driver_quit w s2) as [[[]|e] s3]; simpl; discriminate.
Qed.

(** So one round is all a run makes, whatever the bound on rounds. *)
Lemma while_true_one_round interval fuel s :
  while_true (S fuel) (body interval) s = while_true 1 (body interval) s /\
  fst (while_true 1 (body interval) s) <> Ok StillRunning.
Proof.
  simpl. unfold mbind, stx_bind.
  pose proof (loop_body_never_continues interval s) as H.
  destruct (body interval s) as [[[]|e] s']; simpl in *; split; congruence.
Qed.

Lemma monitor_one_round interval fuel s :
  monitor interval (S fuel) s = monitor interval 1 s /\
  fst (monitor interval 1 s) <> Ok StillRunning.
Proof.
  unfold monitor_url_for_changes, mbind, stx_bind.
  destruct (url_to_img w s) as [[v|e] s1]; [|by split].
  destruct (set_img1 v s1) as [[[]|e] s2]; [|by split].
  apply while_true_one_round.
Qed.

Ltac run_unfold :=
  unfold monitor_url_for_changes, loop_body, try_finally, try_except,
    try_clause, except_clause, finally_clause, publish, url_to_img,
    set_img1, set_img2, get_img1, get_img2, del_img2, emit, lift, save_png,
    open_viewer, sleep, driver_quit, mbind, mret, stx_bind, stx_ret.

Ltac run_start := run_unfold; cbn [while_true]; run_unfold; simpl.

(** With no region, the boxes come back as the binding hands them
    over. *)
Lemma find_differences_None_repr a b d :
  find_differences luma findContours cluster a b None = Ok d ->
  d = from_rect_vector (items d).
Proof.
  unfold find_differences.
  destruct (difference_image luma a b None) as [diff|]; [|discriminate].
  simpl. destruct (findContours diff) as [cs|]; [|discriminate]. simpl.
  intros [= <-]. by rewrite items_from_rect_vector.
Qed.

Lemma py_any_array d :
  d = from_rect_vector (items d) -> items d <> [] -> py_any d = Err ValueError.
Proof.
  intros -> H. rewrite items_from_rect_vector in H.
  by destruct (items d).
Qed.

(** C1: for a provider that answers the first request, fails the
    second and would answer the third, the run makes no comparison at
    all: the failure is printed, then [del img2] finds [img2] unbound
    and the method ends with that exception; the third request is
    never made and the browser is left open. *)
Theorem failed_second_call_ends_run interval fuel a e c :
  capture w 0 = Ok a -> capture w 1 = Err e -> capture w 2 = Ok c ->
  exists s,
    monitor interval (S fuel) initial = (Err UnboundLocalError, s) /\
    calls s = 2%nat /\
    comparisons (trace s) = [] /\
    img1 s = Some (PyArray a) /\
    driver_open s = true.
Proof.
  intros H0 H1 _.
  rewrite (proj1 (monitor_one_round interval fuel initial)).
  run_start. rewrite H0. simpl. rewrite H1.
  destruct (is_Exception e); simpl; eexists; repeat split.
Qed.

(** A tick whose comparison finds no box makes the new capture the
    baseline. *)
Lemma unchanged_capture_promoted interval fuel a b d :
  capture w 0 = Ok a -> capture w 1 = Ok b ->
  find_differences luma findContours cluster a b None = Ok d ->
  items d = [] ->
  img1 (snd (monitor interval (S fuel) initial)) = Some (PyArray b).
Proof.
  intros H0 H1 Hd Hnil.
  rewrite (proj1 (monitor_one_round interval fuel initial)).
  assert (Hany : py_any d = Ok false).
  { unfold py_any. rewrite Hnil. by destruct (repr d). }
  run_start. rewrite H0. simpl. rewrite H1. simpl.
  unfold find_differences_py. rewrite Hd, Hany. simpl.
  destruct (sleep_outcome w 2) as [|e]; simpl;
    [|destruct (is_Exception e); simpl];
    destruct (quit_outcome w 2); reflexivity.
Qed.

(** C5: on a tick whose comparison finds boxes, the new capture does
    not become the baseline.  The test [any(differences)] raises on
    the array of boxes, the exception is printed and [img1] keeps the
    old baseline.  And the statements under the test, run where
    [img2] holds the new capture, bind [img2] to the annotated Pillow
    image, from which [img1] would then be assigned. *)
Theorem changed_capture_not_promoted interval fuel a b d s0 r :
  capture w 0 = Ok a -> capture w 1 = Ok b ->
  find_differences luma findContours cluster a b None = Ok d ->
  items d <> [] ->
  img2 s0 = Some (PyArray b) ->
  draw_differences_py (PyArray b) d = Ok r ->
  (let s := snd (monitor interval (S fuel) initial) in
   img1 s = Some (PyArray a) /\
   (a <> b -> img1 s <> Some (PyArray b)) /\
   Printed ValueError ∈ trace s /\
   comparisons (trace s) = [(PyArray a, PyArray b)]) /\
  (img2 (snd (publish w d s0)) = Some r /\ exists im, r = PyImage im).
Proof.
  intros H0 H1 Hd Hne Hs0 Hr. split.
  - rewrite (proj1 (monitor_one_round interval fuel initial)).
    pose proof (py_any_array d (find_differences_None_repr a b d Hd) Hne) as Hany.
    run_start. rewrite H0. simpl. rewrite H1. simpl.
    unfold find_differences_py. rewrite Hd, Hany. simpl.
    destruct (quit_outcome w 2); simpl.
    all: repeat split; try congruence.
    all: rewrite !elem_of_cons; auto 10.
  - assert (exists im, r = PyImage im) as [im ->].
    { unfold draw_differences_py in Hr.
      destruct (draw_differences _ _ _ _) as [[l|] h]; [|discriminate].
      simpl in Hr. destruct (h !! l) as [[]|]; try discriminate.
      injection Hr as <-. by eexists. }
    split; [|by eexists].
    run_unfold. rewrite Hs0, Hr. simpl.
    destruct (save_outcome w (calls s0)); simpl; [|reflexivity].
    destruct (open_outcome w (calls s0)); reflexivity.
Qed.

(** C9: the loop never goes on to a next tick.  Whatever the
    collaborators do, a run with room for any number of rounds is the
    run of one round: it makes at most two requests and one
    comparison and is over.  An error of the detection is caught and
    printed, and the method then closes the browser and returns; a
    failed request is printed too, and the method then ends with the
    exception of [del img2]. *)
Theorem run_is_over_after_one_round interval fuel :
  let rs := monitor interval (S fuel) initial in
  rs = monitor interval 1 initial /\
  fst rs <> Ok StillRunning /\
  (calls (snd rs) <= 2)%nat /\
  (length (comparisons (trace (snd rs))) <= 1)%nat /\
  (forall a b e,
     capture w 0 = Ok a -> capture w 1 = Ok b ->
     find_differences luma findContours cluster a b None = Err e ->
     is_Exception e = true -> quit_outcome w 2 = Ok tt ->
     rs = (Ok Finished,
           MState 2 false (Some (PyArray a)) None
             [Captured 0; Captured 1;
              Compared (PyArray a) (PyArray b) (Err e); Printed e; DriverQuit])) /\
  (forall a e,
     capture w 0 = Ok a -> capture w 1 = Err e ->
     fst rs = Err UnboundLocalError).
Proof.
  intros rs. subst rs.
  destruct (monitor_one_round interval fuel initial) as [-> Hrun].
  destruct (within_monitor interval initial) as [Hc Hn].
  split; [reflexivity|]. split; [exact Hrun|].
  split; [exact Hc|]. split; [exact Hn|]. split.
  - intros a b e H0 H1 Hd He Hq.
    run_start. rewrite H0. simpl. rewrite H1. simpl.
    unfold find_differences_py. rewrite Hd. simpl. rewrite He. simpl.
    rewrite Hq. reflexivity.
  - intros a e H0 H1.
    run_start. rewrite H0. simpl. rewrite H1.
    by destruct (is_Exception e).
Qed.

End MonitorProperties.

Lemma failed_second_call_ends_run_witness :
  exists s,
    monitor_url_for_changes luma_bt601 findContours_ref no_cluster flaky 5 3 initial =
      (Err UnboundLocalError, s) /\
    calls s = 2%nat /\
    comparisons (trace s) = [] /\
    img1 s = Some (PyArray page) /\
    driver_open s = true.
Proof.
  apply (failed_second_call_ends_run luma_bt601 findContours_ref no_cluster flaky
           5 2 page WebDriverException page); reflexivity.
Defined.

Lemma changed_capture_not_promoted_witness :
  let s0 := MState 2 true (Some (PyArray page)) (Some (PyArray page_dark_spot)) [] in
  let r := PyImage (PIL ModeRGBA (rendered page_dark_spot [(1, 1, 1, 1)])) in
  (let s := snd (monitor_url_for_changes luma_bt601 findContours_ref no_cluster
                   changing 5 3 initial) in
   img1 s = Some (PyArray page) /\
   (page <> page_dark_spot -> img1 s <> Some (PyArray page_dark_spot)) /\
   Printed ValueError ∈ trace s /\
   comparisons (trace s) = [(PyArray page, PyArray page_dark_spot)]) /\
  (img2 (snd (publish changing (PyBoxes NdArray [(1, 1, 1, 1)]) s0)) = Some r /\
   exists im, r = PyImage im).
Proof.
  apply (changed_capture_not_promoted luma_bt601 findContours_ref no_cluster changing
           5 2 page page_dark_spot (PyBoxes NdArray [(1, 1, 1, 1)]));
    [reflexivity|reflexivity|reflexivity|discriminate|reflexivity|reflexivity].
Defined.

Lemma run_is_over_after_one_round_witness :
  monitor_url_for_changes luma_bt601 findContours_ref no_cluster resized 5 3 initial =
    (Ok Finished,
     MState 2 false (Some (PyArray page)) None
       [Captured 0; Captured 1;
        Compared (PyArray page) (PyArray strip) (Err CvError);
        Printed CvError; DriverQuit]).
Proof.
  apply (run_is_over_after_one_round luma_bt601 findContours_ref no_cluster resized
           5 2); reflexivity.
Defined.

(** * Further properties *)

(** ** Cropping *)

Lemma slice_len_le_any n a k : 0 <= n -> 0 <= k -> slice_len n a (a + k) <= k.
Proof.
  intros. unfold slice_len, slice_index.
  destruct (a <? 0) eqn:E1, (a + k <? 0) eqn:E2; lia.
Qed.

Lemma py_slice_whole {A} (l : list A) n :
  n = Z.of_nat (length l) -> py_slice l 0 n = l.
Proof.
  intros ->. unfold py_slice.
  assert (H0 : slice_index (Z.of_nat (length l)) 0 = 0)
    by (unfold slice_index; simpl; lia).
  assert (Hn : slice_index (Z.of_nat (length l)) (Z.of_nat (length l)) =
               Z.of_nat (length l))
    by (unfold slice_index; destruct (Z.of_nat (length l) <? 0) eqn:E; lia).
  rewrite H0, Hn, Z.sub_0_r, Nat2Z.id. simpl. apply firstn_all.
Qed.

Lemma py_slice_map {A B} (f : A -> B) (l : list A) a b :
  py_slice (map f l) a b = map f (py_slice l a b).
Proof.
  unfold py_slice. rewrite length_map.
  change (map f ?x) with (f <$> x). by rewrite fmap_take, fmap_drop.
Qed.

Lemma crop_map {A B} (f : A -> B) (g : list (list A)) a :
  crop (map (map f) g) a = map (map f) (crop g a).
Proof.
  destruct a as [[[x y] w] h]. unfold crop.
  rewrite py_slice_map, !map_map. apply map_ext. intros r.
  apply py_slice_map.
Qed.

Lemma crop_whole {A} (g : list (list A)) :
  rectangular g -> crop g (0, 0, ncols g, nrows g) = g.
Proof.
  intros Hrect. unfold crop, nrows. rewrite py_slice_whole by reflexivity.
  unfold rectangular in Hrect. simpl.
  generalize dependent (ncols g). intros W Hrect.
  induction Hrect as [|r g' Hr _ IH]; simpl; [reflexivity|].
  by rewrite IH, py_slice_whole.
Qed.

Lemma crop_pixel_bound_any {A} (g : list (list A)) x y w h px py v :
  0 <= w -> 0 <= h ->
  pixel (crop g (x, y, w, h)) px py = Some v ->
  0 <= px < w /\ 0 <= py < h.
Proof.
  intros Hw Hh Hp.
  apply pixel_Some in Hp as (Hpx & Hpy & r & Hr & Hv).
  unfold crop in Hr.
  change (map ?f ?l) with (f <$> l) in Hr. rewrite list_lookup_fmap in Hr.
  destruct (py_slice g y (y + h) !! Z.to_nat py) as [r0|] eqn:Hr0; [|discriminate].
  simpl in Hr. injection Hr as <-.
  apply lookup_lt_Some in Hr0, Hv.
  pose proof (py_slice_length g y (y + h)) as L1.
  pose proof (py_slice_length r0 x (x + w)) as L2.
  pose proof (slice_len_le_any (Z.of_nat (length g)) y h ltac:(lia) Hh).
  pose proof (slice_len_le_any (Z.of_nat (length r0)) x w ltac:(lia) Hw).
  lia.
Qed.

#[local] Arguments crop : simpl never.

(** ** More on the detector *)

Lemma subtract_pixel_source a b d x y v :
  subtract a b = Ok d -> pixel d x y = Some v ->
  exists u, pixel a x y = Some u.
Proof.
  unfold subtract. destruct (same_shape a b); [|discriminate].
  intros [= <-]. rewrite pixel_zip_with.
  destruct (pixel a x y) as [u|]; [eauto|discriminate].
Qed.

Lemma translate_0 b : translate 0 0 b = b.
Proof. destruct b as [[[x y] w] h]. unfold translate. by rewrite !Z.add_0_r. Qed.

Section DetectorMore.

Variable luma : bgr -> Z.
Variable findContours : list (list Z) -> result (list contour).
Variable cluster : list box -> Z -> Z -> list box * list Z.

Local Abbreviation detect := (find_differences luma findContours cluster).
Local Abbreviation gray img := (map (map luma) img).

(** X1: with a region inside two images of one size, the difference
    image that is searched for contours is that of the region: it is
    [h] rows by [w] columns, and its element [(i, j)] is the
    intensity of the pixel [(x + i, y + j)] of the first image minus
    that of the same pixel of the second, clipped to 8 bits; no pixel
    outside the region enters it. *)
Theorem compared_intensities_are_the_region img1 img2 x y w h :
  rectangular img1 -> rectangular img2 ->
  mat_empty img1 = false -> same_shape img1 img2 = true ->
  roi_within (ncols img1) (nrows img1) (x, y, w, h) ->
  exists diff,
    difference_image luma img1 img2 (Some (x, y, w, h)) = Ok diff /\
    nrows diff = h /\ ncols diff = w /\
    forall i j,
      pixel diff i j =
        if (0 <=? i) && (i <? w) && (0 <=? j) && (j <? h)
        then p ← pixel img1 (x + i) (y + j);
             q ← pixel img2 (x + i) (y + j);
             Some (saturate_u8 (luma p - luma q))
        else None.
Proof.
  intros Hr1 Hr2 Hne1 Hs Hroi.
  assert (Hshape : nrows img2 = nrows img1 /\ ncols img2 = ncols img1).
  { unfold same_shape in Hs. apply andb_true_iff in Hs as [Hn Hc].
    apply Z.eqb_eq in Hn, Hc. by split. }
  destruct Hshape as [Hn2 Hc2].
  assert (Hne2 : mat_empty img2 = false).
  { unfold mat_empty in *. by rewrite Hn2, Hc2. }
  assert (Hroi1 : roi_within (ncols (gray img1)) (nrows (gray img1)) (x, y, w, h))
    by (by rewrite ncols_map, nrows_map).
  assert (Hroi2 : roi_within (ncols (gray img2)) (nrows (gray img2)) (x, y, w, h))
    by (by rewrite ncols_map, nrows_map, Hn2, Hc2).
  pose proof (rectangular_map luma img1 Hr1) as Hg1.
  pose proof (rectangular_map luma img2 Hr2) as Hg2.
  destruct (crop_within_shape (gray img1) x y w h Hg1 Hroi1) as [Hn1' Hc1'].
  destruct (crop_within_shape (gray img2) x y w h Hg2 Hroi2) as [Hn2' Hc2'].
  assert (Hcs : same_shape (crop (gray img1) (x, y, w, h))
                           (crop (gray img2) (x, y, w, h)) = true).
  { unfold same_shape. by rewrite Hn1', Hn2', Hc1', Hc2', !Z.eqb_refl. }
  rewrite difference_image_nonempty by assumption. simpl.
  rewrite subtract_same_shape by exact Hcs.
  eexists. split; [reflexivity|].
  rewrite nrows_zip_with, ncols_zip_with by congruence.
  split; [exact Hn1'|]. split; [exact Hc1'|].
  intros i j. rewrite pixel_zip_with, !pixel_crop_inside by assumption.
  destruct ((0 <=? i) && (i <? w) && (0 <=? j) && (j <? h)); [|reflexivity].
  rewrite !pixel_map.
  destruct (pixel img1 (x + i) (y + j)) as [p|]; [|reflexivity]. simpl.
  by destruct (pixel img2 (x + i) (y + j)).
Qed.

Lemma difference_pixel_in_region img1 img2 x y w h diff px py v :
  0 <= w -> 0 <= h ->
  difference_image luma img1 img2 (Some (x, y, w, h)) = Ok diff ->
  pixel diff px py = Some v -> 0 <= px < w /\ 0 <= py < h.
Proof.
  intros Hw Hh Hd Hp. unfold difference_image in Hd.
  destruct (cvtColor_BGR2GRAY luma img1) as [g1|]; [|discriminate].
  destruct (cvtColor_BGR2GRAY luma img2) as [g2|]; [|discriminate].
  simpl in Hd.
  destruct (subtract_pixel_source _ _ _ _ _ _ Hd Hp) as [u Hu].
  eapply crop_pixel_bound_any in Hu; eauto.
Qed.

(** X2: whatever the region given, in the image or not, every box
    returned has positive width and height and lies in the rectangle
    the region names: boxes are reported where the region says it is,
    also when slicing has clamped it or, for a negative origin,
    counted it from the far edge. *)
Theorem boxes_lie_in_the_region_given img1 img2 a d :
  findContours_sound findContours ->
  0 <= box_w a -> 0 <= box_h a ->
  detect img1 img2 (Some a) = Ok d ->
  Forall (box_inside a) (items d).
Proof.
  intros Hsound Hw Hh Hd.
  destruct (find_differences_Ok luma findContours cluster _ _ _ _ Hd)
    as (diff & cs & Hdiff & Hcs & ->).
  destruct a as [[[x y] w] h]. simpl in *.
  apply Forall_fmap, Forall_fmap.
  eapply Forall_impl; [|exact (Hsound diff cs Hcs)].
  intros c [Hne Hpts]. simpl. apply box_inside_translate.
  apply boundingRect_inside; [exact Hne|].
  eapply Forall_impl; [|exact Hpts].
  intros [px py] (v & Hp & _). cbn [fst snd] in *.
  eapply difference_pixel_in_region; eauto.
Qed.

(** X3: with no region, two images of one size are compared to the
    end, and every box returned has positive width and height and
    lies in the image. *)
Theorem boxes_lie_in_the_image img1 img2 :
  findContours_total findContours -> findContours_sound findContours ->
  rectangular img1 -> rectangular img2 ->
  mat_empty img1 = false -> same_shape img1 img2 = true ->
  exists d,
    detect img1 img2 None = Ok d /\
    Forall (box_within (ncols img1) (nrows img1)) (items d).
Proof.
  intros Htot Hsound Hr1 Hr2 Hne1 Hs.
  assert (Hne2 : mat_empty img2 = false).
  { unfold same_shape in Hs. apply andb_true_iff in Hs as [Hn Hc].
    apply Z.eqb_eq in Hn, Hc. unfold mat_empty in *. by rewrite <- Hn, <- Hc. }
  pose proof (difference_image_nonempty luma img1 img2 None Hne1 Hne2) as Hd.
  simpl in Hd.
  rewrite subtract_same_shape in Hd by (by rewrite same_shape_map).
  set (diff := zip_with _ _ _) in Hd.
  assert (Hdne : mat_empty diff = false).
  { unfold diff. rewrite mat_empty_zip_with by (by rewrite same_shape_map).
    by rewrite mat_empty_map. }
  destruct (Htot diff Hdne) as [cs Hfc].
  destruct (find_differences_run luma findContours cluster
              img1 img2 None diff cs Hd Hfc) as (d & Hfd & Hit).
  exists d. split; [exact Hfd|]. rewrite Hit.
  apply Forall_fmap. eapply Forall_impl; [|exact (Hsound diff cs Hfc)].
  intros c [Hne Hpts]. simpl. apply boundingRect_within; [exact Hne|].
  eapply Forall_impl; [|exact Hpts].
  intros [px py] (v & Hp & _). cbn [fst snd] in *.
  unfold diff in Hp. rewrite pixel_zip_with in Hp.
  destruct (pixel (gray img1) px py) as [u|] eqn:Hu; [|done].
  apply pixel_in_shape in Hu; [|by apply rectangular_map].
  by rewrite ncols_map, nrows_map in Hu.
Qed.

(** X4: no darkening is missed.  When the two intensity arrays have
    one shape, the method returns, and every pixel whose intensity is
    lower in the second image than in the first lies in one of the
    boxes returned (at its position in the image, the origin of the
    region added back). *)
Theorem every_darkened_pixel_is_boxed img1 img2 area :
  findContours_total findContours -> findContours_covers findContours ->
  mat_empty img1 = false -> mat_empty img2 = false ->
  mat_empty (intensities luma img1 area) = false ->
  same_shape (intensities luma img1 area) (intensities luma img2 area) = true ->
  exists d,
    detect img1 img2 area = Ok d /\
    forall x y u v,
      pixel (intensities luma img1 area) x y = Some u ->
      pixel (intensities luma img2 area) x y = Some v ->
      v < u ->
      Exists (fun b => inside_box b
                match area with
                | Some a => (x + box_x a, y + box_y a)
                | None => (x, y)
                end) (items d).
Proof.
  intros Htot Hcov Hne1 Hne2 Hcrop Hs.
  pose proof (difference_image_nonempty luma img1 img2 area Hne1 Hne2) as Hd.
  rewrite subtract_same_shape in Hd by exact Hs.
  set (diff := zip_with _ _ _) in Hd.
  assert (Hdne : mat_empty diff = false).
  { unfold diff. by rewrite mat_empty_zip_with. }
  destruct (Htot diff Hdne) as [cs Hfc].
  destruct (find_differences_run luma findContours cluster
              img1 img2 area diff cs Hd Hfc) as (d & Hfd & Hit).
  exists d. split; [exact Hfd|].
  intros x y u v Hu Hv Hlt. rewrite Hit.
  assert (Hfg : on_foreground diff (x, y)).
  { exists (saturate_u8 (u - v)). split; [|by apply foreground_saturate_sub].
    unfold diff. simpl. by rewrite pixel_zip_with, Hu, Hv. }
  pose proof (Hcov diff cs Hfc (x, y) Hfg) as Hex.
  destruct area as [a|].
  - apply Exists_fmap, Exists_fmap. eapply Exists_impl; [|exact Hex].
    intros c Hc. simpl. by apply inside_box_translate.
  - apply Exists_fmap. exact Hex.
Qed.

(** X5: a change is seen from one side only.  Comparing in both
    orders, a pixel is in the mask of the first comparison exactly
    when its intensity went down, in the mask of the second exactly
    when it went up: a changed pixel is in one mask and not in the
    other, an unchanged pixel in neither. *)
Theorem change_is_seen_from_one_side img1 img2 area :
  mat_empty img1 = false -> mat_empty img2 = false ->
  mat_empty (intensities luma img1 area) = false ->
  same_shape (intensities luma img1 area) (intensities luma img2 area) = true ->
  exists d12 d21,
    difference_image luma img1 img2 area = Ok d12 /\
    difference_image luma img2 img1 area = Ok d21 /\
    forall x y u v,
      pixel (intensities luma img1 area) x y = Some u ->
      pixel (intensities luma img2 area) x y = Some v ->
      exists m12 m21,
        pixel d12 x y = Some m12 /\ pixel d21 x y = Some m21 /\
        (foreground m12 = true <-> v < u) /\
        (foreground m21 = true <-> u < v).
Proof.
  intros Hne1 Hne2 _ Hs.
  assert (Hs' : same_shape (intensities luma img2 area)
                           (intensities luma img1 area) = true).
  { unfold same_shape in *. apply andb_true_iff in Hs as [Hn Hc].
    apply Z.eqb_eq in Hn, Hc. by rewrite Hn, Hc, !Z.eqb_refl. }
  rewrite !difference_image_nonempty, !subtract_same_shape by assumption.
  eexists _, _. split; [reflexivity|]. split; [reflexivity|].
  intros x y u v Hu Hv. eexists _, _.
  rewrite !pixel_zip_with, Hu, Hv. simpl.
  split; [reflexivity|]. split; [reflexivity|].
  split; apply foreground_saturate_sub.
Qed.

(** X14: a region that is the whole image changes nothing but the
    container: the boxes are those of the call without region, handed
    back as a list. *)
Theorem whole_image_region_changes_nothing img1 img2 :
  rectangular img1 -> rectangular img2 -> same_shape img1 img2 = true ->
  detect img1 img2 (Some (0, 0, ncols img1, nrows img1)) =
    d ← detect img1 img2 None; Ok (PyBoxes PyList (items d)).
Proof.
  intros Hr1 Hr2 Hs.
  unfold same_shape in Hs. apply andb_true_iff in Hs as [Hn Hc].
  apply Z.eqb_eq in Hn, Hc.
  unfold find_differences, difference_image, cvtColor_BGR2GRAY.
  destruct (mat_empty img1); [reflexivity|].
  destruct (mat_empty img2); [reflexivity|]. simpl.
  rewrite <- (ncols_map luma img1), <- (nrows_map (map luma) img1) at 1.
  rewrite crop_whole by (by apply rectangular_map).
  rewrite Hn, Hc.
  rewrite <- (ncols_map luma img2), <- (nrows_map (map luma) img2).
  rewrite crop_whole by (by apply rectangular_map).
  destruct (subtract _ _) as [diff|]; [|reflexivity]. simpl.
  destruct (findContours diff) as [cs|]; [|reflexivity]. simpl.
  do 2 f_equal. rewrite !items_from_rect_vector.
  rewrite <- (map_id (map boundingRect cs)) at 2.
  apply map_ext. intros b. apply translate_0.
Qed.

(** X15: a region only selects what is compared: when the region
    leaves a pixel of both images, the call with the region is the
    call without region on the two images cut to the region, with the
    origin of the region added to the boxes. *)
Theorem region_is_a_cut_of_the_inputs img1 img2 a :
  mat_empty img1 = false -> mat_empty img2 = false ->
  mat_empty (crop img1 a) = false -> mat_empty (crop img2 a) = false ->
  detect img1 img2 (Some a) =
    d ← detect (crop img1 a) (crop img2 a) None;
    Ok (PyBoxes PyList (map (translate (box_x a) (box_y a)) (items d))).
Proof.
  intros H1 H2 Hc1 Hc2.
  unfold find_differences, difference_image, cvtColor_BGR2GRAY.
  rewrite H1, H2, Hc1, Hc2. simpl. rewrite !crop_map.
  destruct (subtract _ _) as [diff|]; [|reflexivity]. simpl.
  destruct (findContours diff) as [cs|]; [|reflexivity]. simpl.
  by rewrite !items_from_rect_vector.
Qed.

End DetectorMore.

(** ** The reference contour extraction leaves no foreground out *)

Lemma row_points_complete y x0 r i v :
  r !! i = Some v -> foreground v = true ->
  (x0 + Z.of_nat i, y) ∈ row_points y x0 r.
Proof.
  revert x0 i. induction r as [|a r IH]; intros x0 i Hi Hv; [done|].
  simpl. apply elem_of_app. destruct i as [|i]; simpl in Hi.
  - injection Hi as ->. rewrite Hv. left.
    rewrite Z.add_0_r. apply list_elem_of_singleton. reflexivity.
  - right. replace (x0 + Z.of_nat (S i)) with (x0 + 1 + Z.of_nat i) by lia.
    by apply IH.
Qed.

Lemma grid_points_complete y0 (g : list (list Z)) j r i v :
  g !! j = Some r -> r !! i = Some v -> foreground v = true ->
  (Z.of_nat i, y0 + Z.of_nat j) ∈ grid_points y0 g.
Proof.
  revert y0 j. induction g as [|r0 g IH]; intros y0 j Hj Hi Hv; [done|].
  simpl. apply elem_of_app. destruct j as [|j]; simpl in Hj.
  - injection Hj as ->. left. rewrite Z.add_0_r.
    by apply (row_points_complete y0 0 r i v).
  - right. replace (y0 + Z.of_nat (S j)) with (y0 + 1 + Z.of_nat j) by lia.
    by eapply IH.
Qed.

Lemma on_foreground_grid_points (g : list (list Z)) p :
  on_foreground g p -> p ∈ grid_points 0 g.
Proof.
  intros (v & Hp & Hv). apply pixel_Some in Hp as (Hx & Hy & r & Hr & Hi).
  pose proof (grid_points_complete 0 g _ _ _ _ Hr Hi Hv) as H.
  rewrite !Z2Nat.id in H by lia. simpl in H. by destruct p.
Qed.

Lemma partition_keeps {A} (f : A -> bool) l l1 l2 x :
  List.partition f l = (l1, l2) -> x ∈ l -> x ∈ l1 \/ x ∈ l2.
Proof.
  intros H Hx. apply list_elem_of_In in Hx.
  apply (List.elements_in_partition f l H) in Hx.
  rewrite <- !list_elem_of_In in Hx. exact Hx.
Qed.

Lemma grow_keeps fuel comp rest c rest' p :
  grow fuel comp rest = (c, rest') ->
  p ∈ comp ++ rest -> p ∈ c \/ p ∈ rest'.
Proof.
  revert comp rest. induction fuel as [|fuel IH]; intros comp rest; simpl.
  - intros [= <- <-]. by rewrite elem_of_app.
  - destruct (List.partition _ rest) as [near far] eqn:Hp.
    destruct near as [|q near].
    + intros [= <- <-]. by rewrite elem_of_app.
    + intros Hg Hin. apply (IH _ _ Hg).
      rewrite !elem_of_app in *. destruct Hin as [Hin|Hin]; [auto|].
      destruct (partition_keeps _ _ _ _ _ Hp Hin); auto.
Qed.

Lemma grow_rest_length fuel comp rest c rest' :
  grow fuel comp rest = (c, rest') -> (length rest' <= length rest)%nat.
Proof.
  revert comp rest. induction fuel as [|fuel IH]; intros comp rest; simpl.
  - by intros [= <- <-].
  - destruct (List.partition _ rest) as [near far] eqn:Hp.
    pose proof (List.partition_length _ _ Hp) as Hlen.
    destruct near as [|q near].
    + by intros [= <- <-].
    + intros Hg. apply IH in Hg. simpl in Hlen. lia.
Qed.

Lemma components_complete fuel pts p :
  (length pts <= fuel)%nat -> p ∈ pts ->
  Exists (fun c => p ∈ c) (components fuel pts).
Proof.
  revert pts. induction fuel as [|fuel IH]; intros pts Hlen Hp.
  - destruct pts; [by apply elem_of_nil in Hp|simpl in Hlen; lia].
  - destruct pts as [|q rest]; [by apply elem_of_nil in Hp|]. simpl.
    destruct (grow (length rest) [q] rest) as [c rest'] eqn:Hg.
    pose proof (grow_rest_length _ _ _ _ _ Hg).
    destruct (grow_keeps _ _ _ _ _ p Hg) as [Hc|Hr]; [exact Hp| |].
    + by apply Exists_cons_hd.
    + apply Exists_cons_tl, IH; [simpl in Hlen; lia|exact Hr].
Qed.

Lemma findContours_ref_covers : findContours_covers findContours_ref.
Proof.
  intros g cs. unfold findContours_ref. intros [= <-] p Hp.
  apply on_foreground_grid_points in Hp.
  pose proof (components_complete (length (grid_points 0 g)) _ p
                ltac:(reflexivity) Hp) as Hex.
  apply Exists_exists in Hex as (c & Hc & Hpc).
  apply Exists_exists. exists c. split.
  - apply list_elem_of_In, elem_of_reverse, list_elem_of_In, Hc.
  - by apply boundingRect_contains.
Qed.

(** ** The further properties of the detector on the sample images *)

Lemma compared_intensities_are_the_region_witness :
  exists diff,
    difference_image luma_bt601 page page_dark_spot (Some (1, 1, 2, 2)) = Ok diff /\
    nrows diff = 2 /\ ncols diff = 2 /\
    forall i j,
      pixel diff i j =
        if (0 <=? i) && (i <? 2) && (0 <=? j) && (j <? 2)
        then p ← pixel page (1 + i) (1 + j);
             q ← pixel page_dark_spot (1 + i) (1 + j);
             Some (saturate_u8 (luma_bt601 p - luma_bt601 q))
        else None.
Proof.
  apply (compared_intensities_are_the_region luma_bt601 page page_dark_spot 1 1 2 2
           rectangular_page rectangular_page_dark_spot eq_refl eq_refl).
  vm_compute. repeat split; discriminate.
Defined.

Lemma boxes_lie_in_the_region_given_witness :
  find_differences luma_bt601 findContours_ref no_cluster
    page page_dark_spot (Some (-2, -2, 1, 1)) = Ok (PyBoxes PyList [(-2, -2, 1, 1)]) /\
  Forall (box_inside (-2, -2, 1, 1)) [(-2, -2, 1, 1)].
Proof.
  split; [reflexivity|].
  apply (boxes_lie_in_the_region_given luma_bt601 findContours_ref no_cluster
           page page_dark_spot (-2, -2, 1, 1) (PyBoxes PyList [(-2, -2, 1, 1)])
           findContours_ref_sound); [discriminate|discriminate|reflexivity].
Defined.

Lemma boxes_lie_in_the_image_witness :
  exists d,
    find_differences luma_bt601 findContours_ref no_cluster
      page page_dark_spot None = Ok d /\
    Forall (box_within 3 3) (items d).
Proof.
  apply (boxes_lie_in_the_image luma_bt601 findContours_ref no_cluster
           page page_dark_spot findContours_ref_total findContours_ref_sound
           rectangular_page rectangular_page_dark_spot); reflexivity.
Defined.

Lemma every_darkened_pixel_is_boxed_witness :
  exists d,
    find_differences luma_bt601 findContours_ref no_cluster
      page page_dark_spot (Some (1, 0, 2, 3)) = Ok d /\
    forall x y u v,
      pixel (intensities luma_bt601 page (Some (1, 0, 2, 3))) x y = Some u ->
      pixel (intensities luma_bt601 page_dark_spot (Some (1, 0, 2, 3))) x y = Some v ->
      v < u ->
      Exists (fun b => inside_box b (x + 1, y + 0)) (items d).
Proof.
  apply (every_darkened_pixel_is_boxed luma_bt601 findContours_ref no_cluster
           page page_dark_spot (Some (1, 0, 2, 3))
           findContours_ref_total findContours_ref_covers); reflexivity.
Defined.

Lemma change_is_seen_from_one_side_witness :
  exists d12 d21,
    difference_image luma_bt601 page page_dark_spot None = Ok d12 /\
    difference_image luma_bt601 page_dark_spot page None = Ok d21 /\
    forall x y u v,
      pixel (intensities luma_bt601 page None) x y = Some u ->
      pixel (intensities luma_bt601 page_dark_spot None) x y = Some v ->
      exists m12 m21,
        pixel d12 x y = Some m12 /\ pixel d21 x y = Some m21 /\
        (foreground m12 = true <-> v < u) /\
        (foreground m21 = true <-> u < v).
Proof.
  apply (change_is_seen_from_one_side luma_bt601 page page_dark_spot None);
    reflexivity.
Defined.

Lemma whole_image_region_changes_nothing_witness :
  find_differences luma_bt601 findContours_ref no_cluster
    page page_dark_spot (Some (0, 0, 3, 3)) = Ok (PyBoxes PyList [(1, 1, 1, 1)]).
Proof.
  apply (whole_image_region_changes_nothing luma_bt601 findContours_ref no_cluster
           page page_dark_spot rectangular_page rectangular_page_dark_spot eq_refl).
Defined.

Lemma region_is_a_cut_of_the_inputs_witness :
  find_differences luma_bt601 findContours_ref no_cluster
    page page_dark_spot (Some (1, 0, 2, 3)) =
  d ← find_differences luma_bt601 findContours_ref no_cluster
        (crop page (1, 0, 2, 3)) (crop page_dark_spot (1, 0, 2, 3)) None;
  Ok (PyBoxes PyList (map (translate 1 0) (items d))).
Proof.
  apply (region_is_a_cut_of_the_inputs luma_bt601 findContours_ref no_cluster
           page page_dark_spot (1, 0, 2, 3)); reflexivity.
Defined.

(** ** More on the renderer *)

Lemma u8_cases (P : Z -> bool) :
  forallb (fun n => P (Z.of_nat n)) (seq 0 256) = true ->
  forall d, u8 d -> P d = true.
Proof.
  intros H d [Hlo Hhi]. rewrite forallb_forall in H.
  specialize (H (Z.to_nat d)). rewrite Z2Nat.id in H by lia.
  apply H, in_seq. lia.
Qed.

(** The highlight colour over an opaque pixel: each channel is the
    blend with weight 50/255, rounded to nearest. *)
Lemma composite_highlight r g b :
  u8 r -> u8 g -> u8 b ->
  composite_px (RGBA r g b 255) (RGBA 0 255 0 50) =
    RGBA ((205 * r + 127) / 255) ((255 * 50 + 205 * g + 127) / 255)
         ((205 * b + 127) / 255) 255.
Proof.
  intros Hr Hg Hb.
  pose proof (u8_cases
    (fun d => px_r (composite_px (RGBA d 0 0 255) (RGBA 0 255 0 50))
              =? (205 * d + 127) / 255) ltac:(vm_compute; reflexivity)) as Hred.
  pose proof (u8_cases
    (fun d => px_g (composite_px (RGBA 0 d 0 255) (RGBA 0 255 0 50))
              =? (255 * 50 + 205 * d + 127) / 255) ltac:(vm_compute; reflexivity)) as Hgreen.
  specialize (Hred r Hr) as Hr'. specialize (Hred b Hb) as Hb'.
  specialize (Hgreen g Hg) as Hg'.
  apply Z.eqb_eq in Hr', Hb', Hg'.
  unfold composite_px in *. cbn [px_a px_r px_g px_b] in *.
  change (50 =? 0) with false in *. cbv iota in *.
  rewrite <- Hr', <- Hb', <- Hg'. reflexivity.
Qed.

Lemma imap_id {A} (l : list A) : imap (fun _ x => x) l = l.
Proof.
  apply list_eq. intros i. rewrite list_lookup_imap. by destruct (l !! i).
Qed.

Lemma imap_imap {A B C} (f : nat -> B -> C) (g : nat -> A -> B) (l : list A) :
  imap f (imap g l) = imap (fun i x => f i (g i x)) l.
Proof.
  apply list_eq. intros i. rewrite !list_lookup_imap. by destruct (l !! i).
Qed.

(** Painting rectangles one after the other: a pixel gets the colour
    when one of them covers it. *)
Lemma paint_all_covered rects c g :
  foldl (fun g area => paint_rect area c g) g rects =
    imap (fun y r =>
      imap (fun x p =>
        if existsb (fun area => in_rect area (Z.of_nat x) (Z.of_nat y)) rects
        then c else p) r) g.
Proof.
  revert g. induction rects as [|r0 rects IH]; intros g; simpl.
  - symmetry. etrans; [|apply imap_id]. apply imap_ext. intros y r _.
    apply imap_id.
  - rewrite IH. unfold paint_rect. rewrite imap_imap.
    apply imap_ext. intros y r _. simpl. rewrite imap_imap.
    apply imap_ext. intros x p _. simpl.
    destruct (in_rect r0 _ _); simpl; [|reflexivity].
    by destruct (existsb _ rects).
Qed.

Lemma existsb_same_elements {A} (f : A -> bool) (l1 l2 : list A) :
  (forall x, x ∈ l1 <-> x ∈ l2) -> existsb f l1 = existsb f l2.
Proof.
  intros H. apply eq_true_iff_eq. rewrite !existsb_exists.
  split; intros (x & Hx & Hf); exists x; split; try exact Hf;
    apply list_elem_of_In, H, list_elem_of_In, Hx.
Qed.

Lemma painted_rectangles_same_elements d1 d2 :
  (forall b, b ∈ d1 <-> b ∈ d2) ->
  forall r, r ∈ painted_rectangles d1 <-> r ∈ painted_rectangles d2.
Proof.
  intros H r. unfold painted_rectangles.
  rewrite <- !list_fmap_compose.
  split; intros Hr; apply list_elem_of_fmap in Hr as (b & -> & Hb);
    apply list_elem_of_fmap_2, H, Hb.
Qed.

Lemma highlight_layer_same_elements a d1 d2 :
  (forall b, b ∈ d1 <-> b ∈ d2) -> highlight_layer a d1 = highlight_layer a d2.
Proof.
  intros H. unfold highlight_layer. rewrite !paint_all_covered.
  apply imap_ext. intros y r _. apply imap_ext. intros x p _. simpl.
  rewrite (existsb_same_elements _ (map c_rect (painted_rectangles d1))
             (map c_rect (painted_rectangles d2))); [reflexivity|].
  intros r0. change (map c_rect ?l) with (c_rect <$> l).
  split; intros Hr; apply list_elem_of_fmap in Hr as (r1 & -> & Hr1);
    apply list_elem_of_fmap_2, (painted_rectangles_same_elements _ _ H), Hr1.
Qed.

(** X7: what a pixel of the result is.  On a base image of 8-bit
    channels, for boxes whose grown rectangles have coordinates of
    magnitude below [2 ^ 24], the result is opaque everywhere; a pixel
    that no grown rectangle covers has the colour of the base image; a
    covered pixel has the base colour blended with green at weight
    50/255, each channel rounded to nearest, so the content under a
    highlight stays visible. *)
Theorem highlight_is_an_opaque_green_blend (h : list pyobj) base a diffs :
  h !! base = Some (NdBGR a) -> rectangular a -> mat_empty a = false ->
  drawable diffs -> paintable diffs ->
  Forall (Forall (fun p => u8 (blue p) /\ u8 (green p) /\ u8 (red p))) a ->
  exists out im h',
    draw_differences draw_rectangle base diffs h = (Ok out, h') /\
    h' !! out = Some (PilImage im) /\
    forall x y p, pixel a x y = Some p ->
      pixel (pixels im) x y =
        Some (if existsb (fun b => covers b x y) diffs
              then RGBA ((205 * red p + 127) / 255)
                        ((255 * 50 + 205 * green p + 127) / 255)
                        ((205 * blue p + 127) / 255) 255
              else RGBA (red p) (green p) (blue p) 255).
Proof.
  intros Hbase Hrect Hne Hdraw Hpaint Hu8.
  eexists _, (PIL ModeRGBA (rendered a diffs)), _.
  split; [by apply draw_differences_run|].
  split; [by rewrite (lookup_app_r h) by lia;
             replace (length h + 3 - length h)%nat with 3%nat by lia|].
  intros x y p Hp. cbn [pixels]. rewrite (pixel_rendered a diffs x y p Hrect Hp).
  rewrite painted_rectangles_exact, covered_by_painted by assumption.
  destruct (pixel_Forall _ _ _ _ _ Hu8 Hp) as (Hb & Hg & Hr).
  destruct (existsb _ _); [|reflexivity].
  by rewrite composite_highlight.
Qed.

(** X8: the order of the boxes and their repetition do not matter.
    Two collections that hold the same boxes give the same image:
    where padded rectangles overlap the highlight is applied once, not
    once for each. *)
Theorem highlight_ignores_order_and_repetition (h : list pyobj) base a d1 d2 :
  h !! base = Some (NdBGR a) -> mat_empty a = false ->
  drawable d1 -> drawable d2 ->
  (forall b, b ∈ d1 <-> b ∈ d2) ->
  exists out im h1 h2,
    draw_differences draw_rectangle base d1 h = (Ok out, h1) /\
    draw_differences draw_rectangle base d2 h = (Ok out, h2) /\
    h1 !! out = Some (PilImage im) /\
    h2 !! out = Some (PilImage im).
Proof.
  intros Hbase Hne H1 H2 Hsame.
  eexists _, (PIL ModeRGBA (rendered a d1)), _, _.
  split; [by apply draw_differences_run|].
  split; [by apply draw_differences_run|].
  split; rewrite (lookup_app_r h) by lia;
    replace (length h + 3 - length h)%nat with 3%nat by lia; simpl;
    [reflexivity|].
  unfold rendered. by rewrite (highlight_layer_same_elements a d1 d2 Hsame).
Qed.

(** Painting any rectangles, accepted or refused, touches the layer
    only. *)
Lemma for_each_rectangle_any (h : list pyobj) o1 o2 g rects :
  exists r g',
    for_each rects
      (fun area => draw_rectangle (length h + 2)%nat area (RGBA 0 255 0 50))
      (h ++ [o1; o2; PilImage (PIL ModeRGBA g)]) =
    (r, h ++ [o1; o2; PilImage (PIL ModeRGBA g')]).
Proof.
  revert g. induction rects as [|r0 rects IH]; intros g; simpl.
  - by eexists _, _.
  - unfold mbind, stx_bind. unfold draw_rectangle at 1. unfold mbind, stx_bind.
    rewrite (load_new h _ 2 (PilImage (PIL ModeRGBA g))) by reflexivity.
    destruct r0 as [[[x0 y0] x1] y1].
    destruct (_ || _).
    + by eexists _, _.
    + rewrite store_new. simpl. apply IH.
Qed.

(** X9: the renderer only adds to the store.  However a call ends, with
    an image or with an exception, every object that was in the store
    is still there unchanged; and a base image without pixel, or a base
    that is a Pillow image and not an array, is refused with cv2's
    error before anything is created. *)
Theorem renderer_only_adds_to_the_store (h : list pyobj) base diffs :
  (exists ext, snd (draw_differences draw_rectangle base diffs h) = h ++ ext) /\
  (forall a, h !! base = Some (NdBGR a) -> mat_empty a = true ->
     draw_differences draw_rectangle base diffs h = (Err CvError, h)) /\
  (forall im, h !! base = Some (PilImage im) ->
     draw_differences draw_rectangle base diffs h = (Err CvError, h)).
Proof.
  assert (Htail : forall o1 px,
    exists ext,
      snd ((_ ← putalpha (length h + 1)%nat 255;
            size ← Image_size (length h + 1)%nat;
            overlay ← Image_new_RGBA size (RGBA 0 0 0 0);
            _ ← for_each (map pad5 (map to_corners diffs))
                  (fun area => draw_rectangle overlay area (RGBA 0 255 0 50));
            img ← Image_alpha_composite (length h + 1)%nat overlay;
            mret img)
           (h ++ [o1; PilImage (PIL ModeRGB px)])) = h ++ ext).
  { intros o1 px. unfold mbind, stx_bind.
    unfold putalpha, mbind, stx_bind.
    erewrite (load_new h _ 1) by reflexivity. cbv beta iota. rewrite store_new.
    cbn [list_insert insert pixels].
    unfold Image_size, mbind, stx_bind.
    erewrite (load_new h _ 1) by reflexivity. cbv beta iota.
    unfold mret, stx_ret, Image_new_RGBA. rewrite alloc_new. cbn [length app].
    destruct (for_each_rectangle_any h o1
                (PilImage (PIL ModeRGBA (map (map (set_alpha 255)) px)))
                (replicate (Z.to_nat (snd (pil_size (PIL ModeRGBA (map (map (set_alpha 255)) px)))))
                   (replicate (Z.to_nat (fst (pil_size (PIL ModeRGBA (map (map (set_alpha 255)) px)))))
                      (RGBA 0 0 0 0)))
                (map pad5 (map to_corners diffs))) as (r & g' & ->).
    destruct r as [[]|e]; [|by eexists].
    unfold Image_alpha_composite, mbind, stx_bind.
    erewrite (load_new h _ 1) by reflexivity.
    erewrite (load_new h _ 2) by reflexivity. cbv beta iota.
    destruct (_ && _); [rewrite alloc_new|]; by eexists. }
  split; [|split].
  - unfold draw_differences. unfold mbind at 1. unfold stx_bind at 1.
    unfold cvtColor_BGR2RGB, mbind, stx_bind, load.
    destruct (h !! base) as [[a|a|im]|] eqn:Hb;
      [| | exists []; by rewrite app_nil_r..].
    + destruct (mat_empty a); [exists []; by rewrite app_nil_r|].
      match goal with
      | |- context [alloc ?o h] =>
          pose proof (alloc_new h [] o) as Ha; rewrite app_nil_r in Ha; rewrite Ha
      end. cbn [length app].
      unfold Image_fromarray, mbind, stx_bind.
      erewrite (load_new h _ 0) by reflexivity. cbv beta iota.
      rewrite alloc_new. cbn [length app]. apply Htail.
    + destruct (mat_empty a); [exists []; by rewrite app_nil_r|].
      match goal with
      | |- context [alloc ?o h] =>
          pose proof (alloc_new h [] o) as Ha; rewrite app_nil_r in Ha; rewrite Ha
      end. cbn [length app].
      unfold Image_fromarray, mbind, stx_bind.
      erewrite (load_new h _ 0) by reflexivity. cbv beta iota.
      rewrite alloc_new. cbn [length app]. apply Htail.
  - intros a Hb He. unfold draw_differences, cvtColor_BGR2RGB, mbind, stx_bind, load.
    by rewrite Hb, He.
  - intros im Hb. unfold draw_differences, cvtColor_BGR2RGB, mbind, stx_bind, load.
    by rewrite Hb.
Qed.

Lemma page_u8 :
  Forall (Forall (fun p => u8 (blue p) /\ u8 (green p) /\ u8 (red p))) page.
Proof. repeat constructor; discriminate. Qed.

Lemma highlight_is_an_opaque_green_blend_witness :
  exists out im h',
    draw_differences draw_rectangle 0%nat [(1, 1, 1, 1)] [NdBGR page] = (Ok out, h') /\
    h' !! out = Some (PilImage im) /\
    forall x y p, pixel page x y = Some p ->
      pixel (pixels im) x y =
        Some (if existsb (fun b => covers b x y) [(1, 1, 1, 1)]
              then RGBA ((205 * red p + 127) / 255)
                        ((255 * 50 + 205 * green p + 127) / 255)
                        ((205 * blue p + 127) / 255) 255
              else RGBA (red p) (green p) (blue p) 255).
Proof.
  apply (highlight_is_an_opaque_green_blend [NdBGR page] 0%nat page [(1, 1, 1, 1)]
           eq_refl rectangular_page eq_refl drawable_one paintable_one page_u8).
Defined.

Lemma highlight_ignores_order_and_repetition_witness :
  exists out im h1 h2,
    draw_differences draw_rectangle 0%nat [(0, 0, 1, 1); (2, 2, 1, 1)] [NdBGR page]
      = (Ok out, h1) /\
    draw_differences draw_rectangle 0%nat
      [(2, 2, 1, 1); (0, 0, 1, 1); (2, 2, 1, 1)] [NdBGR page] = (Ok out, h2) /\
    h1 !! out = Some (PilImage im) /\
    h2 !! out = Some (PilImage im).
Proof.
  apply (highlight_ignores_order_and_repetition [NdBGR page] 0%nat page
           [(0, 0, 1, 1); (2, 2, 1, 1)] [(2, 2, 1, 1); (0, 0, 1, 1); (2, 2, 1, 1)]
           eq_refl eq_refl).
  - repeat constructor; discriminate.
  - repeat constructor; discriminate.
  - intros b. rewrite !elem_of_cons, !elem_of_nil. tauto.
Defined.

Lemma renderer_only_adds_to_the_store_witness :
  draw_differences draw_rectangle 0%nat [(1, 1, 1, 1)] [NdBGR []] =
    (Err CvError, [NdBGR []]) /\
  draw_differences draw_rectangle 0%nat [(1, 1, 1, 1)]
    [PilImage (PIL ModeRGBA (as_rgba page))] =
    (Err CvError, [PilImage (PIL ModeRGBA (as_rgba page))]).
Proof.
  split.
  - apply (proj1 (proj2 (renderer_only_adds_to_the_store
                           [NdBGR []] 0%nat [(1, 1, 1, 1)])) [] eq_refl eq_refl).
  - apply (proj2 (proj2 (renderer_only_adds_to_the_store
                           [PilImage (PIL ModeRGBA (as_rgba page))] 0%nat
                           [(1, 1, 1, 1)]))
             (PIL ModeRGBA (as_rgba page)) eq_refl).
Defined.

(** ** More on the monitor loop and on [compare_webpages] *)

Section MonitorMore.

Variable luma : bgr -> Z.
Variable findContours : list (list Z) -> result (list contour).
Variable cluster : list box -> Z -> Z -> list box * list Z.
Variable w : world.

Local Abbreviation monitor := (monitor_url_for_changes luma findContours cluster w).

Ltac mon_unfold :=
  unfold monitor_url_for_changes, loop_body, try_finally, try_except,
    try_clause, except_clause, finally_clause, publish, url_to_img,
    set_img1, set_img2, get_img1, get_img2, del_img2, emit, lift, save_png,
    open_viewer, sleep, driver_quit, mbind, mret, stx_bind, stx_ret.

Ltac mon_start := mon_unfold; cbn [while_true]; mon_unfold; simpl.

Ltac tick_close :=
  first
    [ split; [reflexivity|]; split; [reflexivity|]; split; [reflexivity|];
      first [ by eexists [_; _; _] | by eexists [_; _; _; _]
            | by eexists [_; _; _; _; _] ]
    | split; reflexivity ].

(** The truth test of the loop never passes on what the detector
    hands back when called without region. *)
Lemma py_any_of_detector a b d :
  find_differences luma findContours cluster a b None = Ok d ->
  (items d = [] /\ py_any d = Ok false) \/
  (items d <> [] /\ py_any d = Err ValueError).
Proof.
  intros Hd. pose proof (find_differences_None_repr _ _ _ _ _ _ Hd) as Hr.
  destruct (items d) as [|b0 l] eqn:Hi.
  - left. split; [reflexivity|]. rewrite Hr. reflexivity.
  - right. split; [discriminate|]. rewrite Hr. reflexivity.
Qed.

(** X10: the loop never publishes.  Whatever the collaborators do, a
    run of [monitor_url_for_changes] neither writes the artifact nor
    opens the viewer: when boxes are found the truth test raises
    before the renderer is called, and when none is found there is
    nothing to draw. *)
Theorem monitor_never_publishes interval fuel :
  Forall (fun ev => publishes ev = false)
         (trace (snd (monitor interval fuel initial))).
Proof.
  destruct fuel as [|fuel].
  - mon_unfold. simpl. destruct (capture w 0); simpl; repeat constructor.
  - rewrite (proj1 (monitor_one_round luma findContours cluster w
                      interval fuel initial)).
    mon_start. destruct (capture w 0) as [a|e0]; simpl; [|constructor].
    destruct (capture w 1) as [b|e1]; simpl;
      [|destruct (is_Exception e1); simpl; repeat constructor].
    unfold find_differences_py.
    destruct (find_differences luma findContours cluster a b None)
      as [d|e] eqn:Hd; simpl.
    + destruct (py_any_of_detector a b d Hd) as [[_ ->]|[_ ->]]; simpl.
      * destruct (sleep_outcome w 2) as [|e]; simpl;
          [|destruct (is_Exception e); simpl];
          destruct (quit_outcome w 2); simpl; repeat constructor.
      * destruct (quit_outcome w 2); simpl; repeat constructor.
    + destruct (is_Exception e); simpl;
        destruct (quit_outcome w 2); simpl; repeat constructor.
Qed.

(** X11: a failure of the first screenshot is not handled.  The
    request made before the loop is outside [try]: its exception
    leaves the method as it is, nothing is printed, no second request
    is made and the browser is left open. *)
Theorem first_request_failure_is_raised interval fuel e :
  capture w 0 = Err e ->
  monitor interval fuel initial = (Err e, MState 1 true None None []).
Proof.
  intros H. unfold monitor_url_for_changes, mbind, stx_bind, url_to_img.
  simpl. by rewrite H.
Qed.

(** X12: once the second screenshot is taken the method cannot fail
    but in closing the browser.  Whatever happens in the rest of the
    tick (an error of the comparison, of the truth test, an interrupt
    of the sleep, which is not an [Exception]), the clause [finally]
    unbinds [img2], closes the browser and leaves by [break], which
    drops a pending exception: the method returns normally when
    [quit] succeeds and raises the exception of [quit] otherwise. *)
Theorem tick_ends_in_quit interval fuel a b :
  capture w 0 = Ok a -> capture w 1 = Ok b ->
  let rs := monitor interval (S fuel) initial in
  (quit_outcome w 2 = Ok tt ->
   fst rs = Ok Finished /\ driver_open (snd rs) = false /\
   img2 (snd rs) = None /\ exists t, trace (snd rs) = t ++ [DriverQuit]) /\
  (forall e, quit_outcome w 2 = Err e ->
   fst rs = Err e /\ driver_open (snd rs) = true).
Proof.
  intros H0 H1 rs. subst rs.
  rewrite (proj1 (monitor_one_round luma findContours cluster w
                    interval fuel initial)).
  mon_start. rewrite H0. simpl. rewrite H1. simpl.
  unfold find_differences_py.
  destruct (find_differences luma findContours cluster a b None)
    as [d|e] eqn:Hd; simpl.
  - destruct (py_any_of_detector a b d Hd) as [[_ ->]|[_ ->]]; simpl.
    + destruct (sleep_outcome w 2) as [|e]; simpl;
        [|destruct (is_Exception e); simpl];
        (split; [intros ->|intros e' ->]); simpl;
        tick_close.
    + split; [intros ->|intros e' ->]; simpl;
        tick_close.
  - destruct (is_Exception e); simpl;
      (split; [intros ->|intros e' ->]); simpl;
      tick_close.
Qed.

(** X13: [compare_webpages] never returns and never writes its file.
    It makes its two requests and compares inside the fixed region;
    when all that succeeds, the call of [draw_differences] with three
    arguments is refused with [TypeError].  In every case the method
    ends with an exception, having published nothing and left the
    browser as it was. *)
Theorem compare_webpages_always_raises s :
  let rs := compare_webpages luma findContours cluster w s in
  (exists e, fst rs = Err e) /\
  (exists t, trace (snd rs) = trace s ++ t /\
             Forall (fun ev => publishes ev = false) t) /\
  (calls (snd rs) <= calls s + 2)%nat /\
  driver_open (snd rs) = driver_open s /\
  (forall a b d,
     driver_open s = true ->
     capture w (calls s) = Ok a -> capture w (S (calls s)) = Ok b ->
     find_differences luma findContours cluster a b
       (Some (1500, 100, 300, 600)) = Ok d ->
     fst rs = Err TypeError /\ calls (snd rs) = (calls s + 2)%nat).
Proof.
  intros rs. subst rs.
  unfold compare_webpages, url_to_img, lift, save_png, mbind, mret,
    stx_bind, stx_ret, call_draw_differences, find_differences_in.
  destruct (driver_open s) eqn:Hopen; simpl.
  - destruct (capture w (calls s)) as [a|e0] eqn:H0; simpl.
    + destruct (capture w (S (calls s))) as [b|e1] eqn:H1; simpl.
      * destruct (find_differences luma findContours cluster a b
                    (Some (1500, 100, 300, 600))) as [d|e] eqn:Hd; simpl.
        all: split; [by eexists|].
        all: split;
          [eexists; split; [by rewrite <- app_assoc|]; repeat constructor|].
        all: split; [lia|]. all: split; [reflexivity|].
        all: intros a' b' d' _ [= <-] [= <-] Hd'; split; [congruence|lia].
      * split; [by eexists|].
        split; [eexists; split; [reflexivity|]; repeat constructor|].
        split; [lia|]. split; [reflexivity|].
        intros a' b' d' _ _ [=].
    + split; [by eexists|].
      split; [exists []; split; [by rewrite app_nil_r|]; constructor|].
      split; [lia|]. split; [reflexivity|].
      intros a' b' d' _ [=].
  - split; [by eexists|].
    split; [exists []; split; [by rewrite app_nil_r|]; constructor|].
    split; [lia|]. split; [reflexivity|].
    intros a' b' d' [=].
Qed.

End MonitorMore.

Lemma first_request_failure_is_raised_witness :
  monitor_url_for_changes luma_bt601 findContours_ref no_cluster down 5 3 initial =
    (Err WebDriverException, MState 1 true None None []).
Proof.
  apply (first_request_failure_is_raised luma_bt601 findContours_ref no_cluster
           down 5 3 WebDriverException eq_refl).
Defined.

Lemma tick_ends_in_quit_witness :
  let rs := monitor_url_for_changes luma_bt601 findContours_ref no_cluster
              interrupted 5 3 initial in
  sleep_outcome interrupted 2 = Err KeyboardInterrupt /\
  fst rs = Ok Finished /\ driver_open (snd rs) = false /\
  img2 (snd rs) = None /\ exists t, trace (snd rs) = t ++ [DriverQuit].
Proof.
  split; [reflexivity|].
  apply (proj1 (tick_ends_in_quit luma_bt601 findContours_ref no_cluster
                  interrupted 5 2 page page eq_refl eq_refl) eq_refl).
Defined.

Lemma compare_webpages_always_raises_witness :
  let rs := compare_webpages luma_bt601 findContours_ref no_cluster wide initial in
  fst rs = Err TypeError /\ calls (snd rs) = 2%nat.
Proof.
  apply (proj2 (proj2 (proj2 (proj2
           (compare_webpages_always_raises luma_bt601 findContours_ref no_cluster
              wide initial))))
           wide_page wide_page (PyBoxes PyList []) eq_refl eq_refl eq_refl).
  vm_compute. reflexivity.
Defined.
